(** * pingGraphGo: the probe engine and the statistics aggregator of [main.go]

    A shallow embedding of [main.go] (startup validation in [main], the probe
    loop [ping], the aggregator [updateStats], the lock discipline of the two
    goroutines) together with the properties the specification states about
    them.

    Conventions.
    - Go's [float64] is the kernel's binary64 [float]; [+ - * /], [math.Sqrt],
      [math.Abs] and the comparisons are the IEEE operations of [PrimFloat]
      (no fused multiply-add, as the gc compiler emits on amd64).
    - Go's [int] is a 64-bit two's complement integer: a [Z] with [wrap]
      applied after each arithmetic step.
    - [fmt.Printf] and [time.Sleep] are recorded as events of a log.
    - Everything the network stack and the clock answer during one probe
      cycle is an input record ([CycleEnv]). *)

From Stdlib Require Import ZArith List Bool Lia Floats String Sorted.
Import ListNotations.
Open Scope Z_scope.

(** ** Go's numeric types *)

Module GoNum.

Definition int_min : Z := - 2 ^ 63.
Definition int_max : Z := 2 ^ 63 - 1.

(** Two's complement reduction of a mathematical integer to [int]. *)
Definition wrap (z : Z) : Z := (z + 2 ^ 63) mod 2 ^ 64 - 2 ^ 63.

(** [x++] on an [int]. *)
Definition incr (z : Z) : Z := wrap (z + 1).

(** [float64(z)] for an [int] [z]: rounding to nearest, ties to even. *)
Definition float64_of_int (z : Z) : float :=
  SF2Prim (binary_normalize prec emax z 0 false).

(** [len(s)] of a slice, as an [int]. *)
Definition len {A : Type} (s : list A) : Z := Z.of_nat (List.length s).

(** [a != b] on [float64]. *)
Definition neqb (a b : float) : bool := negb (PrimFloat.eqb a b).

(** [a > b] and [a >= b] on [float64]. *)
Definition gtb (a b : float) : bool := PrimFloat.ltb b a.
Definition geb (a b : float) : bool := PrimFloat.leb b a.

(** How [SFcompare] orders two finite numbers of the same sign: by
    exponent first, then by mantissa. *)
Definition lex_compare (e1 : Z) (m1 : positive) (e2 : Z) (m2 : positive) : comparison :=
  match e1 ?= e2 with
  | Eq => PosDef.Pos.compare_cont Eq m1 m2
  | Lt => Lt
  | Gt => Gt
  end.

End GoNum.
Import GoNum.

(** ** [updateStats] *)

Module Stats.

(** The values [updateStats] hands to [fmt.Sprintf], in the order of the
    source's local variables.  [totalRunningTime] is the clock reading
    [time.Since(startTime).Seconds()], an input here. *)
Record Report : Type := mkReport {
  avgTime : float;
  maxTime : float;
  minTime : float;
  stdDev : float;
  jitter : float;
  percentageGreaterThanTimeout : float;
  percentageLost : float;
  totalN : Z;
  totalTimeout : Z;
  maxSequentialTimeout : Z;
  timesLost : Z;
  totalRunningTime : float
}.

Section UpdateStats.

Variable timeout : Z.
Variable deadTimeout : float.

(** [for _, t := range *times { if t != deadTimeout { validTimes = append(validTimes, t) } }] *)
Definition validTimes_of (times : list float) : list float :=
  fold_left (fun validTimes t =>
               if neqb t deadTimeout then validTimes ++ [t] else validTimes)
            times [].

(** [sum := 0.0; for _, t := range validTimes { sum += t }] *)
Definition sum_loop (validTimes : list float) : float :=
  fold_left (fun sum t => (sum + t)%float) validTimes 0%float.

(** The body of the min/max loop: two independent [if]s. *)
Definition minmax_step (mm : float * float) (t : float) : float * float :=
  let (minTime, maxTime) := mm in
  let minTime := if PrimFloat.ltb t minTime then t else minTime in
  let maxTime := if gtb t maxTime then t else maxTime in
  (minTime, maxTime).

(** [minTime = validTimes[0]; maxTime = validTimes[0]; for _, t := range validTimes {...}] *)
Definition minmax_loop (validTimes : list float) : float * float :=
  let v0 := nth 0 validTimes 0%float in
  fold_left minmax_step validTimes (v0, v0).

(** [sumSquares += (t - avgTime) * (t - avgTime)] *)
Definition sumSquares_loop (avg : float) (validTimes : list float) : float :=
  fold_left (fun sumSquares t => (sumSquares + (t - avg) * (t - avg))%float)
            validTimes 0%float.

(** [for i := 1; i < len(validTimes); i++ { sumDiffs += math.Abs(validTimes[i] - validTimes[i-1]) }]:
    [todo] iterations remain, the next index is [i]. *)
Fixpoint sumDiffs_loop (validTimes : list float) (todo : nat) (i : nat)
         (sumDiffs : float) : float :=
  match todo with
  | O => sumDiffs
  | S todo' =>
      let d := PrimFloat.abs (nth i validTimes 0 - nth (i - 1) validTimes 0)%float in
      sumDiffs_loop validTimes todo' (S i) (sumDiffs + d)%float
  end.

(** The second pass over [*times]: the two counters. *)
Definition count_step (c : Z * Z) (t : float) : Z * Z :=
  let (timesGreaterThanTimeout, timesLost) := c in
  let timesGreaterThanTimeout :=
    if gtb t (float64_of_int timeout) && neqb t deadTimeout
    then incr timesGreaterThanTimeout else timesGreaterThanTimeout in
  let timesLost :=
    if PrimFloat.eqb t deadTimeout then incr timesLost else timesLost in
  (timesGreaterThanTimeout, timesLost).

Definition count_loop (times : list float) : Z * Z :=
  fold_left count_step times (0, 0).

(** The third pass: the running counter of the current run, the longest
    run seen so far and the number of samples in runs. *)
Record SeqState : Type := mkSeq {
  maxSeq : Z;        (* maxSequentialTimeout *)
  curSeq : Z;        (* currentSequenceTimeout *)
  totTimeout : Z     (* totalTimeout *)
}.

Definition seq_step (s : SeqState) (t : float) : SeqState :=
  if geb t (float64_of_int timeout) && neqb t deadTimeout then
    mkSeq (maxSeq s) (incr (curSeq s)) (incr (totTimeout s))
  else if PrimFloat.eqb t deadTimeout then
    mkSeq (maxSeq s) (incr (curSeq s)) (incr (totTimeout s))
  else
    mkSeq (if curSeq s >? maxSeq s then curSeq s else maxSeq s) 0 (totTimeout s).

Definition seq_loop (times : list float) : SeqState :=
  fold_left seq_step times (mkSeq 0 0 0).

(** The [if] after the loop. *)
Definition seq_final (s : SeqState) : Z :=
  if curSeq s >? maxSeq s then curSeq s else maxSeq s.

Definition updateStats (times : list float) (elapsed : float) : Report :=
  let validTimes := validTimes_of times in
  (* var avgTime, minTime, maxTime, stdDev, jitter float64 *)
  let '(avgTime, minTime, maxTime, stdDev, jitter) :=
    if len validTimes >? 0 then
      let sum := sum_loop validTimes in
      let avgTime := (sum / float64_of_int (len validTimes))%float in
      let (minTime, maxTime) := minmax_loop validTimes in
      let sumSquares := sumSquares_loop avgTime validTimes in
      let stdDev :=
        PrimFloat.sqrt (sumSquares / float64_of_int (len validTimes))%float in
      let jitter :=
        if len validTimes >? 1 then
          let sumDiffs :=
            sumDiffs_loop validTimes (List.length validTimes - 1) 1 0%float in
          (sumDiffs / float64_of_int (len validTimes - 1))%float
        else 0%float in
      (avgTime, minTime, maxTime, stdDev, jitter)
    else (0, 0, 0, 0, 0)%float in
  let (timesGreaterThanTimeout, timesLost) := count_loop times in
  let '(percentageGreaterThanTimeout, percentageLost) :=
    if len times >? 0 then
      ((float64_of_int timesGreaterThanTimeout / float64_of_int (len times) * 100)%float,
       (float64_of_int timesLost / float64_of_int (len times) * 100)%float)
    else (0, 0)%float in
  let s := seq_loop times in
  mkReport avgTime maxTime minTime stdDev jitter
           percentageGreaterThanTimeout percentageLost
           (len times) (totTimeout s) (seq_final s) timesLost elapsed.

End UpdateStats.

End Stats.

(** ** Startup validation in [main] *)

Module Startup.

(** How [main] leaves its prologue (lines 32-48): one of the three
    [os.Exit(1)] calls, or on to the goroutines with the resolved address. *)
Inductive Outcome : Type :=
| ExitUsage
| ExitDeadTimeoutRange
| ExitResolve
| Run (resolvedHost : string).

(** The status passed to [os.Exit], if the prologue exits. *)
Definition exit_code (o : Outcome) : option Z :=
  match o with
  | Run _ => None
  | _ => Some 1
  end.

(** Whether the probe goroutine is started. *)
Definition probing (o : Outcome) : bool :=
  match o with
  | Run _ => true
  | _ => false
  end.

(** The condition of line 39: [deadTimeout > 10000 || deadTimeout < float64(timeout)]. *)
Definition deadTimeout_out_of_range (timeout : Z) (deadTimeout : float) : bool :=
  gtb deadTimeout 10000 || PrimFloat.ltb deadTimeout (float64_of_int timeout).

(** [args] is [flag.Args()]; [resolveHostname] is the function of the same
    name, whose answer comes from [net.LookupIP]. *)
Definition main (args : list string) (timeout : Z) (deadTimeout : float)
           (useIPv6 : bool)
           (resolveHostname : string -> bool -> option string) : Outcome :=
  match args with
  | [] => ExitUsage
  | host :: _ =>
      if deadTimeout_out_of_range timeout deadTimeout then ExitDeadTimeoutRange
      else match resolveHostname host useIPv6 with
           | None => ExitResolve
           | Some resolvedHost => Run resolvedHost
           end
  end.

End Startup.

(** ** The probe loop [ping] *)

Module Probe.

(** [icmp.Type] is an interface; [ipv4.ICMPType] and [ipv6.ICMPType] are
    its two implementations, each an integer. *)
Inductive ICMPType : Type :=
| IPv4Type (n : Z)
| IPv6Type (n : Z).

(** The constants of [golang.org/x/net/ipv4] and [.../ipv6] used here. *)
Definition ipv4_ICMPTypeEcho : ICMPType := IPv4Type 8.
Definition ipv4_ICMPTypeEchoReply : ICMPType := IPv4Type 0.
Definition ipv6_ICMPTypeEchoRequest : ICMPType := IPv6Type 128.
Definition ipv6_ICMPTypeEchoReply : ICMPType := IPv6Type 129.

(** Equality of interface values: same dynamic type, same value. *)
Definition ICMPType_eqb (a b : ICMPType) : bool :=
  match a, b with
  | IPv4Type x, IPv4Type y => x =? y
  | IPv6Type x, IPv6Type y => x =? y
  | _, _ => false
  end.

Record Echo : Type := mkEcho { ID : Z; Seq : Z; Data : string }.
Record Message : Type := mkMessage { Type_ : ICMPType; Code : Z; Body : Echo }.

(** The error of [conn.ReadFrom]: a [net.Error] whose [Timeout()] holds,
    or anything else. *)
Inductive ReadErr : Type := NetTimeout | OtherReadErr.

(** What the environment answers during one iteration of the loop. *)
Record CycleEnv : Type := mkEnv {
  running_cleared : bool;     (* main stored false in running before the loop test *)
  marshal_err : bool;         (* msg.Marshal(nil) failed *)
  msgBytes_len : Z;           (* len(msgBytes) *)
  write_err : bool;           (* conn.WriteTo failed *)
  write_n : Z;                (* bytes written *)
  read_err : option ReadErr;  (* conn.ReadFrom failed *)
  duration : Z;               (* time.Since(start), in nanoseconds *)
  parse_err : bool;           (* icmp.ParseMessage failed *)
  receivedMsg_Type : ICMPType (* receivedMsg.Type *)
}.

(** The lines the loop prints. *)
Inductive Printed : Type :=
| PrListenError
| PrMarshalError
| PrSendError
| PrShortWrite (n expected : Z)
| PrTimedOut
| PrReceiveError
| PrParseError
| PrExceeded (delay : float) (timeout : Z)
| PrNonEcho.

Inductive Event : Type :=
| EvPrintf (p : Printed)
| EvWriteTo (m : Message)
| EvSetReadDeadline (timeout_ms : Z)
| EvLock
| EvUnlock
| EvSleep (nanoseconds : float).

(** The variables [ping] reaches through its pointer arguments, and the
    events it has produced so far (latest last). *)
Record State : Type := mkState {
  times : list float;
  pings : list Z;
  running : bool;
  pingCount : Z;
  trace : list Event
}.

Definition emit (e : Event) (st : State) : State :=
  mkState (times st) (pings st) (running st) (pingCount st) (trace st ++ [e]).

Definition set_running (b : bool) (st : State) : State :=
  mkState (times st) (pings st) b (pingCount st) (trace st).

(** [time.Duration.Milliseconds]: integer division truncating toward zero. *)
Definition Milliseconds (d : Z) : Z := Z.quot d 1000000.

(** How an iteration of the loop body ends: it reaches the next loop test
    (at the end of the body or through [continue]), or it [return]s. *)
Inductive Flow : Type := NextIteration | Return.

Section Ping.

Variable timeout : Z.
Variable deadTimeout : float.
Variable interval : float.
Variable useIPv6 : bool.
Variable id : Z.            (* os.Getpid() & 0xffff *)

Definition build (pingCount : Z) : Message :=
  if useIPv6
  then mkMessage ipv6_ICMPTypeEchoRequest 0 (mkEcho id pingCount "HELLO-PING")
  else mkMessage ipv4_ICMPTypeEcho 0 (mkEcho id pingCount "HELLO-PING").

(** The four lines every branch repeats: [mutex.Lock()], append [v] to
    [times], append [pingCount] to [pings], [mutex.Unlock()]. *)
Definition record (v : float) (st : State) : State :=
  let st := emit EvLock st in
  let st := mkState (times st ++ [v]) (pings st) (running st) (pingCount st) (trace st) in
  let st := mkState (times st) (pings st ++ [pingCount st]) (running st) (pingCount st) (trace st) in
  emit EvUnlock st.

(** [time.Sleep(time.Duration(interval * float64(time.Second)))] *)
Definition sleep (st : State) : State :=
  emit (EvSleep (interval * 1000000000)%float) st.

(** One iteration of the body of [for *running] (lines 239-343). *)
Definition ping_cycle (env : CycleEnv) (st : State) : State * Flow :=
  let st := mkState (times st) (pings st) (running st) (incr (pingCount st)) (trace st) in
  let msg := build (pingCount st) in
  if marshal_err env then
    (set_running false (emit (EvPrintf PrMarshalError) st), Return)
  else
    let st := emit (EvWriteTo msg) st in
    if write_err env then
      let st := emit (EvPrintf PrSendError) st in
      let st := record deadTimeout st in
      (sleep st, NextIteration)
    else
      let st :=
        if negb (write_n env =? msgBytes_len env)
        then emit (EvPrintf (PrShortWrite (write_n env) (msgBytes_len env))) st
        else st in
      let st := emit (EvSetReadDeadline timeout) st in
      let st :=
        match read_err env with
        | Some NetTimeout =>
            record deadTimeout (emit (EvPrintf PrTimedOut) st)
        | Some OtherReadErr =>
            record deadTimeout (emit (EvPrintf PrReceiveError) st)
        | None =>
            if parse_err env then
              record deadTimeout (emit (EvPrintf PrParseError) st)
            else if ICMPType_eqb (receivedMsg_Type env) ipv4_ICMPTypeEchoReply
                    || ICMPType_eqb (receivedMsg_Type env) ipv6_ICMPTypeEchoReply
            then
              let delay := float64_of_int (Milliseconds (duration env)) in
              let st := record delay st in
              if gtb delay (float64_of_int timeout)
              then emit (EvPrintf (PrExceeded delay timeout)) st
              else st
            else
              record deadTimeout (emit (EvPrintf PrNonEcho) st)
        end in
      (sleep st, NextIteration).

(** [for *running { ... }] over the answers of the environment, one
    record per iteration. *)
Fixpoint ping_loop (envs : list CycleEnv) (st : State) : State :=
  match envs with
  | [] => st
  | env :: rest =>
      let st := if running_cleared env then set_running false st else st in
      if running st then
        match ping_cycle env st with
        | (st', NextIteration) => ping_loop rest st'
        | (st', Return) => st'
        end
      else st
  end.

(** [ping]: [listen_err] tells whether [icmp.ListenPacket] failed. *)
Definition ping (listen_err : bool) (envs : list CycleEnv) (st : State) : State :=
  if listen_err
  then set_running false (emit (EvPrintf PrListenError) st)
  else ping_loop envs st.

End Ping.

(** The variables as [main] initialises them (lines 51-56). *)
Definition init : State := mkState [] [] true 0 [].

End Probe.

(** ** The goroutines and their shared variables

    [main] starts [ping] on a goroutine of its own, then runs the render
    loop; a third goroutine waits for SIGINT and SIGTERM.  They share
    [times], [pings], [running] and [mutex].  Each goroutine is a small
    machine whose steps are the source's statements that touch a shared
    variable or the mutex, taken one at a time in any order; what the
    network, the terminal and the operating system answer comes with the
    step. *)

Module Sched.

Inductive Thread : Type := Prober | Renderer | Signals.

Definition Thread_eqb (a b : Thread) : bool :=
  match a, b with
  | Prober, Prober | Renderer, Renderer | Signals, Signals => true
  | _, _ => false
  end.

Inductive Var : Type := VTimes | VPings | VRunning.

Inductive Access : Type := Rd (v : Var) | Wr (v : Var).

(** The statements of the source that take a step. *)
Inductive Site : Type :=
| ProbeListen          (* 228: icmp.ListenPacket *)
| ProbeListenFailed    (* 231: running = false, then return *)
| ProbeLoopTest        (* 238: for running *)
| ProbeCycle           (* 239-341: the request, the send, the reply *)
| ProbeMarshalFailed   (* 266: running = false, then return *)
| ProbeLock            (* mutex.Lock() of the branch taken *)
| ProbeAppendTimes     (* times = append(times, v) *)
| ProbeAppendPings     (* pings = append(pings, pingCount) *)
| ProbeUnlock          (* mutex.Unlock() *)
| ProbeSleep           (* 280, 343: time.Sleep *)
| RenderInit           (* 69: termui.Init *)
| RenderLoopTest       (* 118: for running *)
| RenderSelect         (* 119: select *)
| RenderQuit           (* 125: running = false, then os.Exit(0) *)
| RenderLock           (* 143: mutex.Lock() *)
| RenderCopy           (* 144-145: plotData gets a copy of times *)
| RenderUnlock         (* 146: mutex.Unlock() *)
| RenderUpdateStats    (* 169: updateStats reads times *)
| RenderUpdateStatsAgain (* 178: updateStats reads times *)
| RenderWait           (* 183: wg.Wait(), then main returns *)
| SignalReceive        (* 111: a signal arrives *)
| SignalClear.         (* 112: running = false, then os.Exit(0) *)

(** One step as an observer sees it: who moved, where, which shared
    variable was touched, and whether the mover held the mutex. *)
Record Label : Type := mkLabel {
  who : Thread;
  site : Site;
  access : option Access;
  locked : bool
}.

Inductive ProberPC : Type :=
| PListen
| PListenFailed
| PTest
| PMarshalFailed
| PCycle
| PLock (v : float)
| PAppendTimes (v : float)
| PAppendPings
| PUnlock
| PSleep
| PReturned.

Inductive RendererPC : Type :=
| RInit
| RTest
| RSelect
| RQuit
| RLock
| RCopy
| RUnlock
| RStats
| RStatsAgain
| RWait.

Inductive SignalPC : Type := SWait | SClear.

(** What [uiEvents] or the ticker delivers to the [select]. *)
Inductive UIEvent : Type := Tick | KeyQuit | KeyScale | KeyOther | Resized.

Record Config : Type := mkConfig {
  (* shared *)
  times : list float;
  pings : list Z;
  running : bool;
  mutex : option Thread;          (* the goroutine inside Lock..Unlock *)
  exited : bool;                  (* os.Exit was called, or main returned *)
  (* the probe goroutine *)
  p_pc : ProberPC;
  pingCount : Z;
  (* the render loop *)
  r_pc : RendererPC;
  logScale : bool;                (* currentScale == "log" *)
  plotData : list float;
  copies : list (list float);     (* every plotData so far, oldest first *)
  (* the signal goroutine *)
  s_pc : SignalPC
}.

Definition init : Config :=
  mkConfig [] [] true None false PListen 0 RInit false [] [] SWait.

Definition holds (t : Thread) (c : Config) : bool :=
  match mutex c with
  | Some t' => Thread_eqb t t'
  | None => false
  end.

Definition label (t : Thread) (s : Site) (a : option Access) (c : Config) : Label :=
  mkLabel t s a (holds t c).

Definition set_times (x : list float) (c : Config) : Config :=
  mkConfig x (pings c) (running c) (mutex c) (exited c) (p_pc c) (pingCount c)
           (r_pc c) (logScale c) (plotData c) (copies c) (s_pc c).
Definition set_pings (x : list Z) (c : Config) : Config :=
  mkConfig (times c) x (running c) (mutex c) (exited c) (p_pc c) (pingCount c)
           (r_pc c) (logScale c) (plotData c) (copies c) (s_pc c).
Definition set_running (x : bool) (c : Config) : Config :=
  mkConfig (times c) (pings c) x (mutex c) (exited c) (p_pc c) (pingCount c)
           (r_pc c) (logScale c) (plotData c) (copies c) (s_pc c).
Definition set_mutex (x : option Thread) (c : Config) : Config :=
  mkConfig (times c) (pings c) (running c) x (exited c) (p_pc c) (pingCount c)
           (r_pc c) (logScale c) (plotData c) (copies c) (s_pc c).
Definition set_exited (c : Config) : Config :=
  mkConfig (times c) (pings c) (running c) (mutex c) true (p_pc c) (pingCount c)
           (r_pc c) (logScale c) (plotData c) (copies c) (s_pc c).
Definition set_p_pc (x : ProberPC) (c : Config) : Config :=
  mkConfig (times c) (pings c) (running c) (mutex c) (exited c) x (pingCount c)
           (r_pc c) (logScale c) (plotData c) (copies c) (s_pc c).
Definition set_pingCount (x : Z) (c : Config) : Config :=
  mkConfig (times c) (pings c) (running c) (mutex c) (exited c) (p_pc c) x
           (r_pc c) (logScale c) (plotData c) (copies c) (s_pc c).
Definition set_r_pc (x : RendererPC) (c : Config) : Config :=
  mkConfig (times c) (pings c) (running c) (mutex c) (exited c) (p_pc c) (pingCount c)
           x (logScale c) (plotData c) (copies c) (s_pc c).
Definition set_logScale (x : bool) (c : Config) : Config :=
  mkConfig (times c) (pings c) (running c) (mutex c) (exited c) (p_pc c) (pingCount c)
           (r_pc c) x (plotData c) (copies c) (s_pc c).
Definition set_plotData (x : list float) (c : Config) : Config :=
  mkConfig (times c) (pings c) (running c) (mutex c) (exited c) (p_pc c) (pingCount c)
           (r_pc c) (logScale c) x (copies c ++ [x]) (s_pc c).
Definition set_s_pc (x : SignalPC) (c : Config) : Config :=
  mkConfig (times c) (pings c) (running c) (mutex c) (exited c) (p_pc c) (pingCount c)
           (r_pc c) (logScale c) (plotData c) (copies c) x.

(** A step of [ping].  [listen_err] answers [icmp.ListenPacket];
    [outcome] is what lines 239-341 arrive at before they touch the shared
    variables: [None] when marshalling fails, the value to record
    otherwise. *)
Definition step_prober (listen_err : bool) (outcome : option float) (c : Config)
  : option (Config * Label) :=
  match p_pc c with
  | PListen =>
      Some (set_p_pc (if listen_err then PListenFailed else PTest) c,
            label Prober ProbeListen None c)
  | PListenFailed =>
      Some (set_p_pc PReturned (set_running false c),
            label Prober ProbeListenFailed (Some (Wr VRunning)) c)
  | PMarshalFailed =>
      Some (set_p_pc PReturned (set_running false c),
            label Prober ProbeMarshalFailed (Some (Wr VRunning)) c)
  | PTest =>
      Some (set_p_pc (if running c then PCycle else PReturned) c,
            label Prober ProbeLoopTest (Some (Rd VRunning)) c)
  | PCycle =>
      let c := set_pingCount (incr (pingCount c)) c in
      Some (set_p_pc (match outcome with
                      | None => PMarshalFailed
                      | Some v => PLock v
                      end) c,
            label Prober ProbeCycle None c)
  | PLock v =>
      match mutex c with
      | None => Some (set_p_pc (PAppendTimes v) (set_mutex (Some Prober) c),
                      label Prober ProbeLock None c)
      | Some _ => None
      end
  | PAppendTimes v =>
      Some (set_p_pc PAppendPings (set_times (times c ++ [v]) c),
            label Prober ProbeAppendTimes (Some (Wr VTimes)) c)
  | PAppendPings =>
      Some (set_p_pc PUnlock (set_pings (pings c ++ [pingCount c]) c),
            label Prober ProbeAppendPings (Some (Wr VPings)) c)
  | PUnlock =>
      Some (set_p_pc PSleep (set_mutex None c),
            label Prober ProbeUnlock None c)
  | PSleep =>
      Some (set_p_pc PTest c, label Prober ProbeSleep None c)
  | PReturned => None
  end.

(** A step of the render loop of [main].  [init_err] answers
    [termui.Init]; [ev] is what the [select] receives. *)
Definition step_renderer (init_err : bool) (ev : UIEvent) (c : Config)
  : option (Config * Label) :=
  match r_pc c with
  | RInit =>
      Some (if init_err then set_exited c else set_r_pc RTest c,
            label Renderer RenderInit None c)
  | RTest =>
      Some (set_r_pc (if running c then RSelect else RWait) c,
            label Renderer RenderLoopTest (Some (Rd VRunning)) c)
  | RSelect =>
      let c' :=
        match ev with
        | Tick => set_r_pc RLock c
        | KeyQuit => set_r_pc RQuit c
        | KeyScale => set_r_pc RTest (set_logScale (negb (logScale c)) c)
        | KeyOther | Resized => set_r_pc RTest c
        end in
      Some (c', label Renderer RenderSelect None c)
  | RQuit =>
      Some (set_exited (set_running false c),
            label Renderer RenderQuit (Some (Wr VRunning)) c)
  | RLock =>
      match mutex c with
      | None => Some (set_r_pc RCopy (set_mutex (Some Renderer) c),
                      label Renderer RenderLock None c)
      | Some _ => None
      end
  | RCopy =>
      Some (set_r_pc RUnlock (set_plotData (times c) c),
            label Renderer RenderCopy (Some (Rd VTimes)) c)
  | RUnlock =>
      Some (set_r_pc RStats (set_mutex None c),
            label Renderer RenderUnlock None c)
  | RStats =>
      Some (set_r_pc (if len (plotData c) >=? 2 then RTest else RStatsAgain) c,
            label Renderer RenderUpdateStats (Some (Rd VTimes)) c)
  | RStatsAgain =>
      Some (set_r_pc RTest c,
            label Renderer RenderUpdateStatsAgain (Some (Rd VTimes)) c)
  | RWait =>
      match p_pc c with
      | PReturned => Some (set_exited c, label Renderer RenderWait None c)
      | _ => None
      end
  end.

(** A step of the signal goroutine; [arrived] tells whether a signal is
    pending on [sigs]. *)
Definition step_signals (arrived : bool) (c : Config) : option (Config * Label) :=
  match s_pc c with
  | SWait =>
      match r_pc c with
      | RInit => None              (* the goroutine starts at line 110 *)
      | _ =>
          if arrived
          then Some (set_s_pc SClear c, label Signals SignalReceive None c)
          else None
      end
  | SClear =>
      Some (set_exited (set_running false c),
            label Signals SignalClear (Some (Wr VRunning)) c)
  end.

(** The scheduler's choice: which goroutine moves, and what its
    environment answers if it asks. *)
Inductive Choice : Type :=
| MoveProber (listen_err : bool) (outcome : option float)
| MoveRenderer (init_err : bool) (ev : UIEvent)
| MoveSignals (arrived : bool).

(** [None]: the chosen goroutine cannot move (it waits for the mutex, for
    a signal or for the other goroutine, it has returned, or the process
    has exited). *)
Definition step (ch : Choice) (c : Config) : option (Config * Label) :=
  if exited c then None
  else match ch with
       | MoveProber listen_err outcome => step_prober listen_err outcome c
       | MoveRenderer init_err ev => step_renderer init_err ev c
       | MoveSignals arrived => step_signals arrived c
       end.

(** An execution: the choices are taken in order, one that cannot move is
    skipped.  The result is the last configuration and the labels of the
    steps taken. *)
Fixpoint run (sched : list Choice) (c : Config) : Config * list Label :=
  match sched with
  | [] => (c, [])
  | ch :: rest =>
      match step ch c with
      | None => run rest c
      | Some (c', l) => let (c'', ls) := run rest c' in (c'', l :: ls)
      end
  end.

(** [a] is an initial segment of [b]. *)
Definition prefix (a b : list float) : Prop := exists r, b = a ++ r.

(** The program points between [mutex.Lock()] and [mutex.Unlock()]. *)
Definition p_inside (pc : ProberPC) : bool :=
  match pc with
  | PAppendTimes _ | PAppendPings | PUnlock => true
  | _ => false
  end.

Definition r_inside (pc : RendererPC) : bool :=
  match pc with
  | RCopy | RUnlock => true
  | _ => false
  end.

(** What holds in every configuration an execution reaches. *)
Definition invariant (c : Config) : Prop :=
  mutex c = (if p_inside (p_pc c) then Some Prober
             else if r_inside (r_pc c) then Some Renderer
             else None) /\
  p_inside (p_pc c) && r_inside (r_pc c) = false /\
  List.length (times c)
  = (List.length (pings c)
     + match p_pc c with PAppendPings => 1 | _ => 0 end)%nat /\
  Forall (fun d => prefix d (times c)) (copies c) /\
  Sorted.StronglySorted prefix (copies c).

(** The discipline the code keeps: the appends of the probe goroutine and
    the copy of the render loop are made under the mutex, the running flag
    is read and written outside it. *)
Definition disciplined (l : Label) : Prop :=
  (access l = Some (Wr VTimes) \/ access l = Some (Wr VPings) \/ site l = RenderCopy ->
   locked l = true) /\
  (access l = Some (Rd VRunning) \/ access l = Some (Wr VRunning) ->
   locked l = false).

(** The discipline of section 5 of the specification, on the labels of an
    execution: every read and every write of a shared variable is made by
    a goroutine that holds the mutex. *)
Definition all_under_mutex (ls : list Label) : Prop :=
  forall l, In l ls -> access l <> None -> locked l = true.

(** An execution in which the probe goroutine is between its two appends
    while the render loop, past its copy, calls [updateStats]. *)
Definition racy_schedule : list Choice :=
  [ MoveRenderer false Tick;       (* termui.Init *)
    MoveRenderer false Tick;       (* for running *)
    MoveRenderer false Tick;       (* select: the ticker *)
    MoveRenderer false Tick;       (* mutex.Lock() *)
    MoveRenderer false Tick;       (* copy *)
    MoveRenderer false Tick;       (* mutex.Unlock() *)
    MoveProber false (Some 12%float);  (* icmp.ListenPacket *)
    MoveProber false (Some 12%float);  (* for running *)
    MoveProber false (Some 12%float);  (* the cycle, up to the record *)
    MoveProber false (Some 12%float);  (* mutex.Lock() *)
    MoveProber false (Some 12%float);  (* append to times *)
    MoveRenderer false Tick ].     (* updateStats reads times *)

(** An execution in which the render loop copies [times] before and after
    a cycle of the probe goroutine. *)
Definition two_copies_schedule : list Choice :=
  repeat (MoveRenderer false Tick) 7      (* up to the first updateStats *)
  ++ repeat (MoveProber false (Some 12%float)) 8   (* listen, one cycle *)
  ++ repeat (MoveRenderer false Tick) 6.  (* second updateStats, next tick, copy *)

End Sched.

(** ** The specification's vocabulary for the statistics

    These definitions follow the words of the specification (section 4.4),
    not the loops of [updateStats]; the theorems below compare the two. *)

Module Spec.

Section Words.

Variable timeout : Z.
Variable deadTimeout : float.

(** A sample is lost when it is the sentinel, valid otherwise. *)
Definition lost (t : float) : bool := PrimFloat.eqb t deadTimeout.
Definition valid (t : float) : bool := negb (lost t).

(** A valid sample whose latency is strictly above Timeout. *)
Definition exceeds (t : float) : bool :=
  valid t && PrimFloat.ltb (float64_of_int timeout) t.

(** A sample that is lost or whose latency is at least Timeout. *)
Definition lost_or_timed_out (t : float) : bool :=
  lost t || PrimFloat.leb (float64_of_int timeout) t.

End Words.

(** An echo reply of either address family (section 4.2, CLASSIFY). *)
Definition is_echo_reply (ty : Probe.ICMPType) : bool :=
  match ty with
  | Probe.IPv4Type 0 => true
  | Probe.IPv6Type 129 => true
  | _ => false
  end.

(** The latency of a reply: send-to-receipt time in whole milliseconds. *)
Definition latency (env : Probe.CycleEnv) : float :=
  float64_of_int (Probe.Milliseconds (Probe.duration env)).

(** The measurement of a cycle whose request could be built: lost (the
    sentinel) when the send fails, when no reply arrives in time, on a
    receive error, when the reply cannot be parsed or is no echo reply;
    the latency otherwise. *)
Definition sample (deadTimeout : float) (env : Probe.CycleEnv) : float :=
  if Probe.write_err env then deadTimeout
  else match Probe.read_err env with
       | Some _ => deadTimeout
       | None =>
           if Probe.parse_err env then deadTimeout
           else if is_echo_reply (Probe.receivedMsg_Type env)
                then latency env
                else deadTimeout
       end.

(** A cycle that runs to its end: the loop test passes and the request
    can be marshalled. *)
Definition completes (env : Probe.CycleEnv) : Prop :=
  Probe.running_cleared env = false /\ Probe.marshal_err env = false.

(** The sequence numbers 1, 2, ..., n. *)
Definition seq_numbers (n : nat) : list Z := map Z.of_nat (seq 1 n).

(** The state of the loop at its test: as many sequence numbers as
    samples, numbered from 1, and the counter at the last number. *)
Definition at_loop_test (st : Probe.State) : Prop :=
  Probe.pings st = seq_numbers (List.length (Probe.times st)) /\
  Probe.pingCount st = len (Probe.times st).

(** Sums are accumulated in [float64], left to right, starting from 0. *)
Definition sum (l : list float) : float :=
  fold_left PrimFloat.add l 0%float.

Definition mean (l : list float) : float :=
  (sum l / float64_of_int (len l))%float.

(** [m] is a least element of [l]: it occurs, and nothing is below it. *)
Definition is_min (l : list float) (m : float) : Prop :=
  In m l /\ forall t, In t l -> PrimFloat.ltb t m = false.

Definition is_max (l : list float) (m : float) : Prop :=
  In m l /\ forall t, In t l -> PrimFloat.ltb m t = false.

(** Population standard deviation: squared deviations from the mean,
    divided by the count. *)
Definition population_std_dev (l : list float) : float :=
  let mu := mean l in
  PrimFloat.sqrt
    (sum (map (fun t => ((t - mu) * (t - mu))%float) l) / float64_of_int (len l)).

(** |l[i] - l[i-1]| for every adjacent pair of [l], in order. *)
Fixpoint adjacent_abs_diffs (l : list float) : list float :=
  match l with
  | a :: (b :: _) as tl => PrimFloat.abs (b - a) :: adjacent_abs_diffs tl
  | _ => []
  end.

(** [100 * k / n] as the code rounds it: the quotient first. *)
Definition percentage (k n : nat) : float :=
  (float64_of_int (Z.of_nat k) / float64_of_int (Z.of_nat n) * 100)%float.

(** [b] is a contiguous run of [p]-samples of [l]. *)
Definition is_run (p : float -> bool) (l b : list float) : Prop :=
  (exists a c, l = a ++ b ++ c) /\ forallb p b = true.

(** [m] is the length of a longest contiguous run of [p]-samples of [l]. *)
Definition longest_run (p : float -> bool) (l : list float) (m : nat) : Prop :=
  (exists b, is_run p l b /\ List.length b = m) /\
  (forall b, is_run p l b -> (List.length b <= m)%nat).

(** [c] is the length of the longest run of [p]-samples that ends [l]. *)
Definition longest_trailing_run (p : float -> bool) (l : list float) (c : nat) : Prop :=
  (exists a b, l = a ++ b /\ forallb p b = true /\ List.length b = c) /\
  (forall a b, l = a ++ b -> forallb p b = true -> (List.length b <= c)%nat).

(** The number of samples of [l] that satisfy [p]. *)
Definition count (p : float -> bool) (l : list float) : nat :=
  List.length (filter p l).

End Spec.

(** ** Sample environments

    One answer of the environment for each way a cycle can go. *)

Module Examples.

Import Probe.

(** An echo reply after 12.345678 ms. *)
Definition env_echo : CycleEnv :=
  mkEnv false false 18 false 18 None 12345678 false ipv4_ICMPTypeEchoReply.

(** [conn.WriteTo] fails. *)
Definition env_send_failure : CycleEnv :=
  mkEnv false false 18 true 0 None 0 false ipv4_ICMPTypeEchoReply.

(** The read deadline expires. *)
Definition env_timeout : CycleEnv :=
  mkEnv false false 18 false 18 (Some NetTimeout) 150000000 false ipv4_ICMPTypeEchoReply.

(** [conn.ReadFrom] fails otherwise. *)
Definition env_receive_error : CycleEnv :=
  mkEnv false false 18 false 18 (Some OtherReadErr) 1000 false ipv4_ICMPTypeEchoReply.

(** The reply cannot be parsed. *)
Definition env_parse_failure : CycleEnv :=
  mkEnv false false 18 false 18 None 3000000 true ipv4_ICMPTypeEchoReply.

(** A destination-unreachable message (type 3) arrives. *)
Definition env_non_echo : CycleEnv :=
  mkEnv false false 18 false 18 None 3000000 false (IPv4Type 3).

(** [msg.Marshal] fails. *)
Definition env_marshal_failure : CycleEnv :=
  mkEnv false true 0 false 0 None 0 false ipv4_ICMPTypeEchoReply.

(** An echo reply measured at 200 ms, above a timeout of 150 ms. *)
Definition env_slow_echo : CycleEnv :=
  mkEnv false false 18 false 18 None 200000000 false ipv4_ICMPTypeEchoReply.

(** An echo reply measured at 500.02 ms, read just before a deadline of
    500 ms and timed just after it. *)
Definition env_echo_at_sentinel : CycleEnv :=
  mkEnv false false 18 false 18 None 500020000 false ipv4_ICMPTypeEchoReply.

(** The six outcomes of a completed cycle, one after the other. *)
Definition six_outcomes : list CycleEnv :=
  [env_echo; env_send_failure; env_timeout; env_receive_error;
   env_parse_failure; env_non_echo].

End Examples.

(** ** [resolveHostname] *)

Module Resolve.

(** The two errors [resolveHostname] builds with [fmt.Errorf]. *)
Inductive Error : Type :=
| FailedToResolve (host : string)
| NoAddressFound (family : string) (host : string).

Section ResolveHostname.

(** [net.IP] and the functions of package [net] the code calls: parameters
    here.  [To4] and [To16] answer [None] for Go's [nil]; [LookupIP]
    answers [None] when its error is not [nil]. *)
Variable IP : Type.
Variable To4 : IP -> option IP.
Variable To16 : IP -> option IP.
Variable IPString : IP -> string.
Variable LookupIP : string -> option (list IP).

Definition notnil (ip : option IP) : bool :=
  match ip with
  | Some _ => true
  | None => false
  end.

(** The two tests of the loop body, for the family asked for. *)
Definition selected (useIPv6 : bool) (ip : IP) : bool :=
  if useIPv6 && notnil (To16 ip) && negb (notnil (To4 ip)) then true
  else if negb useIPv6 && notnil (To4 ip) then true
  else false.

(** [for _, ip := range ips] with its two [break]s: the value of [ipAddr]
    after the loop. *)
Fixpoint range_ips (useIPv6 : bool) (ips : list IP) (ipAddr : string) : string :=
  match ips with
  | [] => ipAddr
  | ip :: rest =>
      if useIPv6 && notnil (To16 ip) && negb (notnil (To4 ip)) then IPString ip
      else if negb useIPv6 && notnil (To4 ip) then IPString ip
      else range_ips useIPv6 rest ipAddr
  end.

(** The pair [resolveHostname] returns: the address and the error
    ([None] for [nil]). *)
Definition resolveHostname (host : string) (useIPv6 : bool) : string * option Error :=
  match LookupIP host with
  | None => (EmptyString, Some (FailedToResolve host))
  | Some ips =>
      let ipAddr := range_ips useIPv6 ips EmptyString in
      if String.eqb ipAddr EmptyString
      then (EmptyString,
            Some (NoAddressFound (if useIPv6 then "IPv6" else "IPv4") host))
      else (ipAddr, None)
  end.

(** How [main] uses the pair (lines 44-48): the address when the error is
    [nil]. *)
Definition for_main (host : string) (useIPv6 : bool) : option string :=
  match resolveHostname host useIPv6 with
  | (resolvedHost, None) => Some resolvedHost
  | (_, Some _) => None
  end.

End ResolveHostname.

(** A small instance for examples: addresses as byte slices, [To4] and
    [To16] by the length of the slice and the IPv4-in-IPv6 prefix, a
    resolver that knows two hosts. *)
Definition bytes_To4 (ip : list Z) : option (list Z) :=
  match ip with
  | [_; _; _; _] => Some ip
  | [0; 0; 0; 0; 0; 0; 0; 0; 0; 0; 255; 255; a; b; c; d] => Some [a; b; c; d]
  | _ => None
  end.

Definition bytes_To16 (ip : list Z) : option (list Z) :=
  match ip with
  | [a; b; c; d] => Some [0; 0; 0; 0; 0; 0; 0; 0; 0; 0; 255; 255; a; b; c; d]
  | _ => if (List.length ip =? 16)%nat then Some ip else None
  end.

Definition example_v6 : list Z := [32; 1; 13; 184; 0; 0; 0; 0; 0; 0; 0; 0; 0; 0; 0; 7].
Definition example_v4 : list Z := [192; 0; 2; 7].
Definition example_v4_mapped : list Z :=
  [0; 0; 0; 0; 0; 0; 0; 0; 0; 0; 255; 255; 192; 0; 2; 9].

Definition example_String (ip : list Z) : string :=
  match ip with
  | [192; 0; 2; 7] => "192.0.2.7"
  | [32; 1; 13; 184; 0; 0; 0; 0; 0; 0; 0; 0; 0; 0; 0; 7] => "2001:db8::7"
  | [0; 0; 0; 0; 0; 0; 0; 0; 0; 0; 255; 255; 192; 0; 2; 9] => "192.0.2.9"
  | _ => "?"
  end.

Definition example_LookupIP (host : string) : option (list (list Z)) :=
  if String.eqb host "dual.example" then Some [example_v6; example_v4_mapped; example_v4]
  else if String.eqb host "v4.example" then Some [example_v4]
  else None.

End Resolve.

(** ** The chart: [maxFloat64], [minFloat64] and the ticker branch of [main] *)

Module Plot.

(** [max := slice[0]] panics on an empty slice: [None]. *)
Definition maxFloat64 (slice : list float) : option float :=
  match slice with
  | [] => None
  | s0 :: _ => Some (fold_left (fun max v => if gtb v max then v else max) slice s0)
  end.

Definition minFloat64 (slice : list float) : option float :=
  match slice with
  | [] => None
  | s0 :: _ => Some (fold_left (fun min v => if PrimFloat.ltb v min then v else min) slice s0)
  end.

(** [s[i] = v]: [None] when the index is out of range (a panic). *)
Fixpoint store {A : Type} (s : list A) (i : nat) (v : A) : option (list A) :=
  match s, i with
  | [], _ => None
  | _ :: s', O => Some (v :: s')
  | x :: s', S i' =>
      match store s' i' v with
      | Some t => Some (x :: t)
      | None => None
      end
  end.

(** The part of [plot] the ticker branch assigns. *)
Record PlotWidget : Type := mkPlot {
  Data : list (list float);
  MaxVal : float
}.

(** ['l'] on the keyboard (lines 129-134). *)
Definition toggle (currentScale : string) : string :=
  if String.eqb currentScale "linear" then "log" else "linear".

(** [currentScale] after the keys of [ids], one [KeyboardEvent] each;
    ["q"] and ["<C-c>"] end the loop (lines 123-135). *)
Fixpoint after_keys (ids : list string) (currentScale : string) : string :=
  match ids with
  | [] => currentScale
  | id :: rest =>
      if String.eqb id "q" || String.eqb id "<C-c>" then currentScale
      else if String.eqb id "l" then after_keys rest (toggle currentScale)
      else after_keys rest currentScale
  end.

Section Ticker.

(** [math.Log10], a parameter: the kernel's floats have no logarithm. *)
Variable Log10 : float -> float.

(** [for i, v := range plotData], from index [i] on, over
    [transformedData]. *)
Fixpoint transform_loop (rest : list float) (i : nat) (transformedData : list float)
  : option (list float) :=
  match rest with
  | [] => Some transformedData
  | v :: rest' =>
      match store transformedData i (if gtb v 0 then Log10 v else 0%float) with
      | Some t => transform_loop rest' (S i) t
      | None => None
      end
  end.

(** [transformedData := make([]float64, len(plotData))] and the loop. *)
Definition transform (plotData : list float) : option (list float) :=
  transform_loop plotData 0 (repeat 0%float (List.length plotData)).

(** Lines 148-166, on the copy [plotData] taken under the mutex. *)
Definition update_plot (currentScale : string) (plotData : list float)
           (plot : PlotWidget) : option PlotWidget :=
  if len plotData >? 0 then
    if String.eqb currentScale "log" then
      match transform plotData with
      | None => None
      | Some transformedData =>
          match store (Data plot) 0 transformedData with
          | None => None
          | Some data =>
              match maxFloat64 transformedData with
              | None => None
              | Some m => Some (mkPlot data m)
              end
          end
      end
    else
      match store (Data plot) 0 plotData with
      | None => None
      | Some data =>
          match maxFloat64 plotData with
          | None => None
          | Some m => Some (mkPlot data m)
          end
      end
  else Some plot.

End Ticker.

End Plot.

(** ** What an observer of [ping] sees *)

Module Observe.


(** The requests handed to [conn.WriteTo], in order. *)
Fixpoint sent (tr : list Probe.Event) : list Probe.Message :=
  match tr with
  | [] => []
  | Probe.EvWriteTo m :: tr' => m :: sent tr'
  | _ :: tr' => sent tr'
  end.

(** The [mutex] calls, in order: [true] for [Lock], [false] for [Unlock]. *)
Fixpoint mutex_calls (tr : list Probe.Event) : list bool :=
  match tr with
  | [] => []
  | Probe.EvLock :: tr' => true :: mutex_calls tr'
  | Probe.EvUnlock :: tr' => false :: mutex_calls tr'
  | _ :: tr' => mutex_calls tr'
  end.

(** The number of [time.Sleep] calls. *)
Fixpoint sleeps (tr : list Probe.Event) : nat :=
  match tr with
  | [] => 0
  | Probe.EvSleep _ :: tr' => S (sleeps tr')
  | _ :: tr' => sleeps tr'
  end.

(** An answer of the environment that ends the loop: the flag was cleared
    from outside, or the request cannot be marshalled. *)
Definition stops (env : Probe.CycleEnv) : bool :=
  Probe.running_cleared env || Probe.marshal_err env.

(** [a] is an initial segment of [b]. *)
Definition extends {A : Type} (a b : list A) : Prop := exists r, b = a ++ r.

(** Every [Lock] is followed at once by an [Unlock], and every [Unlock]
    comes right after a [Lock]: nothing is sent, awaited, printed or slept
    through while the mutex is held. *)
Definition released_at_once (tr : list Probe.Event) : Prop :=
  (forall a b, tr = a ++ Probe.EvLock :: b -> exists b', b = Probe.EvUnlock :: b') /\
  (forall a b, tr = a ++ Probe.EvUnlock :: b -> exists a', a = a' ++ [Probe.EvLock]).

End Observe.

(** * Properties *)

(** ** Arithmetic of [int] *)

Lemma wrap_in_range (z : Z) : int_min <= z <= int_max -> wrap z = z.
Proof.
  unfold wrap, int_min, int_max. intros H.
  rewrite Z.mod_small by lia. lia.
Qed.

Lemma incr_no_overflow (z : Z) : 0 <= z < int_max -> incr z = z + 1.
Proof.
  intros H. unfold incr. apply wrap_in_range.
  unfold int_min, int_max in *. lia.
Qed.

(** On the non-negative range of the kernel's integers, [float64_of_int] is
    the primitive conversion. *)
Lemma float64_of_int_uint63 (n : PrimInt63.int) :
  float64_of_int (Uint63Axioms.to_Z n) = PrimFloat.of_uint63 n.
Proof.
  unfold float64_of_int. rewrite <- of_uint63_spec. apply SF2Prim_Prim2SF.
Qed.

Lemma len_app {A : Type} (l1 l2 : list A) : len (l1 ++ l2) = len l1 + len l2.
Proof. unfold len. rewrite length_app. lia. Qed.

Lemma len_nonneg {A : Type} (l : list A) : 0 <= len l.
Proof. unfold len. lia. Qed.

(** ** Comparisons of [float64] *)

Section FloatOrder.

Lemma lex_compare_Lt e1 m1 e2 m2 :
  lex_compare e1 m1 e2 m2 = Lt <-> e1 < e2 \/ (e1 = e2 /\ (m1 < m2)%positive).
Proof.
  unfold lex_compare. change (PosDef.Pos.compare_cont Eq) with Pos.compare.
  destruct (Z.compare_spec e1 e2) as [He|He|He].
  - rewrite Pos.compare_lt_iff. split; [intros; right; split; assumption|].
    intros [H|[_ H]]; [lia|assumption].
  - split; [intros _; left; assumption|reflexivity].
  - split; [discriminate|]. intros [H|[H _]]; lia.
Qed.

Lemma lex_compare_Gt e1 m1 e2 m2 :
  lex_compare e1 m1 e2 m2 = Gt <-> e2 < e1 \/ (e1 = e2 /\ (m2 < m1)%positive).
Proof.
  unfold lex_compare. change (PosDef.Pos.compare_cont Eq) with Pos.compare.
  destruct (Z.compare_spec e1 e2) as [He|He|He].
  - rewrite Pos.compare_gt_iff. split; [intros; right; split; assumption|].
    intros [H|[_ H]]; [lia|assumption].
  - split; [discriminate|]. intros [H|[H _]]; lia.
  - split; [intros _; left; assumption|reflexivity].
Qed.

Lemma CompOpp_Lt (c : comparison) : CompOpp c = Lt <-> c = Gt.
Proof. destruct c; simpl; split; congruence. Qed.

Lemma CompOpp_lex_compare e1 m1 e2 m2 :
  match e1 ?= e2 with
  | Eq => CompOpp (PosDef.Pos.compare_cont Eq m1 m2)
  | Lt => Gt
  | Gt => Lt
  end = CompOpp (lex_compare e1 m1 e2 m2).
Proof. unfold lex_compare. now destruct (e1 ?= e2). Qed.

Lemma SFcompare_Lt_trans (a b c : spec_float) :
  SFcompare a b = Some Lt -> SFcompare b c = Some Lt -> SFcompare a c = Some Lt.
Proof.
  destruct a as [sa|sa| |sa ma ea], b as [sb|sb| |sb mb eb], c as [sc|sc| |sc mc ec];
    simpl; try discriminate; try reflexivity;
    try (destruct sa; try discriminate; try reflexivity);
    try (destruct sb; try discriminate; try reflexivity);
    try (destruct sc; try discriminate; try reflexivity).
  - (* three negative finite numbers *)
    rewrite !CompOpp_lex_compare.
    intros H1 H2. injection H1 as H1. injection H2 as H2. f_equal.
    apply CompOpp_Lt in H1, H2. apply CompOpp_Lt.
    apply lex_compare_Gt in H1, H2. apply lex_compare_Gt. lia.
  - (* three positive finite numbers *)
    fold (lex_compare ea ma eb mb) (lex_compare eb mb ec mc) (lex_compare ea ma ec mc).
    intros H1 H2. injection H1 as H1. injection H2 as H2. f_equal.
    apply lex_compare_Lt in H1, H2. apply lex_compare_Lt. lia.
Qed.

Lemma ltb_trans (a b c : float) :
  PrimFloat.ltb a b = true -> PrimFloat.ltb b c = true -> PrimFloat.ltb a c = true.
Proof.
  rewrite !FloatAxioms.ltb_spec. unfold SFltb.
  destruct (SFcompare (Prim2SF a) (Prim2SF b)) as [[]|] eqn:Hab; try discriminate.
  destruct (SFcompare (Prim2SF b) (Prim2SF c)) as [[]|] eqn:Hbc; try discriminate.
  intros _ _. now rewrite (SFcompare_Lt_trans _ _ _ Hab Hbc).
Qed.

End FloatOrder.

Section FloatOrderMore.

Lemma SFcompare_refl_not_Lt (a : spec_float) : SFcompare a a <> Some Lt.
Proof.
  destruct a as [s|s| |s m e]; simpl; try discriminate.
  - destruct s; discriminate.
  - destruct s.
    + rewrite CompOpp_lex_compare. intros H. injection H as H.
      apply CompOpp_Lt, lex_compare_Gt in H. lia.
    + fold (lex_compare e m e m). intros H. injection H as H.
      apply lex_compare_Lt in H. lia.
Qed.

Lemma ltb_irrefl (a : float) : PrimFloat.ltb a a = false.
Proof.
  rewrite FloatAxioms.ltb_spec. unfold SFltb.
  destruct (SFcompare (Prim2SF a) (Prim2SF a)) as [[]|] eqn:H; try reflexivity.
  now apply SFcompare_refl_not_Lt in H.
Qed.

Lemma ltb_asym (a b : float) :
  PrimFloat.ltb a b = true -> PrimFloat.ltb b a = false.
Proof.
  intros Hab. destruct (PrimFloat.ltb b a) eqn:Hba; [|reflexivity].
  pose proof (ltb_trans _ _ _ Hab Hba) as H. now rewrite ltb_irrefl in H.
Qed.

End FloatOrderMore.

(** ** The loops of [updateStats] *)

Section StatsLoops.

Import Stats.

Variable timeout : Z.
Variable deadTimeout : float.

Lemma validTimes_fold (times acc : list float) :
  fold_left (fun validTimes t =>
               if neqb t deadTimeout then validTimes ++ [t] else validTimes)
            times acc
  = acc ++ filter (Spec.valid deadTimeout) times.
Proof.
  revert acc. induction times as [|t times IH]; intros acc; simpl.
  - now rewrite app_nil_r.
  - rewrite IH. unfold Spec.valid, Spec.lost, neqb.
    destruct (PrimFloat.eqb t deadTimeout); simpl; [reflexivity|].
    now rewrite <- app_assoc.
Qed.

(** The first loop keeps exactly the valid samples, in order. *)
Lemma validTimes_of_filter (times : list float) :
  validTimes_of deadTimeout times = filter (Spec.valid deadTimeout) times.
Proof. unfold validTimes_of. now rewrite validTimes_fold. Qed.

Lemma sum_loop_sum (l : list float) : sum_loop l = Spec.sum l.
Proof. reflexivity. Qed.

Lemma sumSquares_fold (avg : float) (l : list float) (acc : float) :
  fold_left (fun sumSquares t => (sumSquares + (t - avg) * (t - avg))%float) l acc
  = fold_left PrimFloat.add (map (fun t => ((t - avg) * (t - avg))%float) l) acc.
Proof. revert acc. induction l as [|t l IH]; intros acc; simpl; [reflexivity|apply IH]. Qed.

(** The index loop of the jitter walks the adjacent pairs of the slice. *)
Lemma sumDiffs_loop_adjacent (rest pre : list float) (a acc : float) :
  sumDiffs_loop (pre ++ a :: rest) (List.length rest) (S (List.length pre)) acc
  = fold_left PrimFloat.add (Spec.adjacent_abs_diffs (a :: rest)) acc.
Proof.
  revert pre a acc. induction rest as [|b rest IH]; intros pre a acc.
  - reflexivity.
  - cbn [List.length sumDiffs_loop].
    replace (S (List.length pre) - 1)%nat with (List.length pre) by lia.
    rewrite (app_nth2 pre (a :: b :: rest)) by lia.
    rewrite (app_nth2 pre (a :: b :: rest)) by lia.
    replace (S (List.length pre) - List.length pre)%nat with 1%nat by lia.
    rewrite Nat.sub_diag. cbn [nth].
    replace (pre ++ a :: b :: rest) with ((pre ++ [a]) ++ b :: rest)
      by (now rewrite <- app_assoc).
    replace (S (S (List.length pre))) with (S (List.length (pre ++ [a])))
      by (rewrite length_app; simpl; lia).
    rewrite IH. reflexivity.
Qed.

Lemma adjacent_abs_diffs_length (l : list float) :
  List.length (Spec.adjacent_abs_diffs l) = (List.length l - 1)%nat.
Proof.
  induction l as [|a [|b l] IH]; try reflexivity.
  change (Spec.adjacent_abs_diffs (a :: b :: l))
    with (PrimFloat.abs (b - a) :: Spec.adjacent_abs_diffs (b :: l)).
  cbn [List.length] in *. lia.
Qed.

(** The min/max loop: both results come from the slice (or are the
    initial values), each is an extremum of what the loop has seen. *)
Lemma minmax_fold (l : list float) (mn mx : float) :
  let r := fold_left minmax_step l (mn, mx) in
  (fst r = mn \/ In (fst r) l) /\
  (fst r = mn \/ PrimFloat.ltb (fst r) mn = true) /\
  (forall t, In t l -> PrimFloat.ltb t (fst r) = false) /\
  (snd r = mx \/ In (snd r) l) /\
  (snd r = mx \/ PrimFloat.ltb mx (snd r) = true) /\
  (forall t, In t l -> PrimFloat.ltb (snd r) t = false).
Proof.
  revert mn mx. induction l as [|t l IH]; intros mn mx; cbn zeta.
  - simpl. repeat split; auto; intros t [].
  - cbn [fold_left].
    set (mn1 := if PrimFloat.ltb t mn then t else mn).
    set (mx1 := if PrimFloat.ltb mx t then t else mx).
    change (minmax_step (mn, mx) t) with (mn1, mx1).
    specialize (IH mn1 mx1). cbn zeta in IH.
    set (r := fold_left minmax_step l (mn1, mx1)) in *.
    destruct IH as (Ha & Hb & Hc & Hd & He & Hf).
    assert (Hmn1 : (mn1 = t /\ PrimFloat.ltb t mn = true)
                   \/ (mn1 = mn /\ PrimFloat.ltb t mn = false)).
    { unfold mn1. destruct (PrimFloat.ltb t mn); auto. }
    assert (Hmx1 : (mx1 = t /\ PrimFloat.ltb mx t = true)
                   \/ (mx1 = mx /\ PrimFloat.ltb mx t = false)).
    { unfold mx1. destruct (PrimFloat.ltb mx t); auto. }
    clearbody mn1 mx1 r.
    repeat split.
    + destruct Ha as [Ha|Ha]; [|right; right; exact Ha].
      destruct Hmn1 as [[E _]|[E _]]; rewrite Ha, E; [right; left|left]; reflexivity.
    + destruct Hmn1 as [[E L]|[E L]]; subst mn1.
      * right. destruct Hb as [Hb|Hb]; [now rewrite Hb|].
        exact (ltb_trans _ _ _ Hb L).
      * exact Hb.
    + intros t' [<-|Hin]; [|now apply Hc].
      destruct Hmn1 as [[E L]|[E L]]; subst mn1.
      * destruct Hb as [Hb|Hb]; [rewrite Hb; apply ltb_irrefl|now apply ltb_asym].
      * destruct Hb as [Hb|Hb]; [now rewrite Hb|].
        destruct (PrimFloat.ltb t (fst r)) eqn:E; [|reflexivity].
        now rewrite (ltb_trans _ _ _ E Hb) in L.
    + destruct Hd as [Hd|Hd]; [|right; right; exact Hd].
      destruct Hmx1 as [[E _]|[E _]]; rewrite Hd, E; [right; left|left]; reflexivity.
    + destruct Hmx1 as [[E L]|[E L]]; subst mx1.
      * right. destruct He as [He|He]; [now rewrite He|].
        exact (ltb_trans _ _ _ L He).
      * exact He.
    + intros t' [<-|Hin]; [|now apply Hf].
      destruct Hmx1 as [[E L]|[E L]]; subst mx1.
      * destruct He as [He|He]; [rewrite He; apply ltb_irrefl|now apply ltb_asym].
      * destruct He as [He|He]; [now rewrite He|].
        destruct (PrimFloat.ltb (snd r) t) eqn:E; [|reflexivity].
        now rewrite (ltb_trans _ _ _ He E) in L.
Qed.

Lemma minmax_loop_extrema (l : list float) :
  l <> [] ->
  Spec.is_min l (fst (minmax_loop l)) /\ Spec.is_max l (snd (minmax_loop l)).
Proof.
  intros Hne. destruct l as [|v0 l]; [contradiction|].
  unfold minmax_loop. cbn [nth].
  pose proof (minmax_fold (v0 :: l) v0 v0) as H. cbn zeta in H.
  destruct H as (Ha & _ & Hc & Hd & _ & Hf).
  repeat split; try assumption.
  - destruct Ha as [->|Ha]; [now left|exact Ha].
  - destruct Hd as [->|Hd]; [now left|exact Hd].
Qed.

End StatsLoops.

(** ** Contiguous runs of a list *)

Section Runs.

Variable p : float -> bool.

Lemma is_run_nil (l : list float) : Spec.is_run p l [].
Proof. split; [exists [], l; reflexivity|reflexivity]. Qed.

Lemma is_run_snoc (l b : list float) (t : float) :
  Spec.is_run p l b -> Spec.is_run p (l ++ [t]) b.
Proof.
  intros [(a & c & ->) Hb]. split; [|exact Hb].
  exists a, (c ++ [t]). now rewrite <- !app_assoc.
Qed.

(** A run of [l ++ [t]] is a run of [l], or it ends with [t]. *)
Lemma is_run_snoc_inv (l b : list float) (t : float) :
  Spec.is_run p (l ++ [t]) b ->
  Spec.is_run p l b \/
  (exists a b', l = a ++ b' /\ b = b' ++ [t] /\ forallb p b' = true /\ p t = true).
Proof.
  intros [(a & c & E) Hb].
  destruct c as [|x c].
  - rewrite app_nil_r in E. destruct b as [|y b].
    + left. apply is_run_nil.
    + right. destruct (exists_last (l := y :: b)) as (b' & z & Eb); [discriminate|].
      rewrite Eb, app_assoc in E. apply app_inj_tail in E as [El Et]. subst z.
      rewrite Eb, forallb_app in Hb. apply andb_true_iff in Hb as [Hb' Ht].
      simpl in Ht. rewrite andb_true_r in Ht.
      exists a, b'. auto.
  - left. destruct (exists_last (l := x :: c)) as (c' & z & Ec); [discriminate|].
    rewrite Ec, !app_assoc in E. apply app_inj_tail in E as [El _].
    split; [|exact Hb]. exists a, c'. now rewrite app_assoc.
Qed.

Lemma trailing_run_snoc_inv (l a b : list float) (t : float) :
  l ++ [t] = a ++ b ->
  b = [] \/ (exists b', b = b' ++ [t] /\ l = a ++ b').
Proof.
  intros E. destruct b as [|y b]; [now left|right].
  destruct (exists_last (l := y :: b)) as (b' & z & Eb); [discriminate|].
  rewrite Eb, app_assoc in E. apply app_inj_tail in E as [El Et]. subst z.
  exists b'. auto.
Qed.

(** One more [p]-sample lengthens the trailing run. *)
Lemma longest_trailing_run_hit (l : list float) (t : float) (c : nat) :
  p t = true -> Spec.longest_trailing_run p l c ->
  Spec.longest_trailing_run p (l ++ [t]) (S c).
Proof.
  intros Ht [(a & b & El & Hb & Hlen) Hmax]. split.
  - exists a, (b ++ [t]). rewrite El, <- app_assoc, forallb_app, Hb, length_app.
    simpl. rewrite Ht. repeat split; lia.
  - intros a' b' E Hb'. apply trailing_run_snoc_inv in E as [->|(b'' & -> & El')].
    + simpl. lia.
    + rewrite forallb_app in Hb'. apply andb_true_iff in Hb' as [Hb'' _].
      specialize (Hmax _ _ El' Hb''). rewrite length_app. simpl. lia.
Qed.

(** Any other sample ends it. *)
Lemma longest_trailing_run_miss (l : list float) (t : float) :
  p t = false -> Spec.longest_trailing_run p (l ++ [t]) 0.
Proof.
  intros Ht. split.
  - exists (l ++ [t]), []. now rewrite app_nil_r.
  - intros a b E Hb. apply trailing_run_snoc_inv in E as [->|(b' & -> & _)].
    + simpl. lia.
    + rewrite forallb_app in Hb. simpl in Hb. rewrite Ht in Hb.
      rewrite andb_false_r in Hb. discriminate.
Qed.

Lemma longest_run_hit (l : list float) (t : float) (m c : nat) :
  p t = true -> Spec.longest_trailing_run p l c ->
  Spec.longest_run p l (Nat.max m c) ->
  Spec.longest_run p (l ++ [t]) (Nat.max m (S c)).
Proof.
  intros Ht Htr [(b & Hrun & Hlen) Hmax].
  pose proof (longest_trailing_run_hit l t c Ht Htr) as [(a' & b' & E' & Hb' & Hlen') _].
  split.
  - destruct (Nat.le_gt_cases m c) as [Hmc|Hmc].
    + exists b'. split; [|lia].
      split; [exists a', []; now rewrite app_nil_r|exact Hb'].
    + exists b. split; [now apply is_run_snoc|lia].
  - intros b0 H0. apply is_run_snoc_inv in H0 as [H0|(a0 & b0' & El & -> & Hb0 & _)].
    + specialize (Hmax _ H0). lia.
    + destruct Htr as [_ Htr]. specialize (Htr _ _ El Hb0).
      rewrite length_app. simpl. lia.
Qed.

Lemma longest_run_miss (l : list float) (t : float) (m : nat) :
  p t = false -> Spec.longest_run p l m -> Spec.longest_run p (l ++ [t]) m.
Proof.
  intros Ht [(b & Hrun & Hlen) Hmax]. split.
  - exists b. split; [now apply is_run_snoc|exact Hlen].
  - intros b0 H0. apply is_run_snoc_inv in H0 as [H0|(a0 & b0' & El & -> & Hb0 & Ht')].
    + now apply Hmax.
    + congruence.
Qed.

Lemma longest_run_empty : Spec.longest_run p [] 0.
Proof.
  split.
  - exists []. split; [apply is_run_nil|reflexivity].
  - intros b [(a & c & E) _]. symmetry in E.
    apply app_eq_nil in E as [_ E]. apply app_eq_nil in E as [-> _]. simpl. lia.
Qed.

Lemma longest_trailing_run_empty : Spec.longest_trailing_run p [] 0.
Proof.
  split.
  - exists [], []. auto.
  - intros a b E _. symmetry in E. apply app_eq_nil in E as [_ ->]. simpl. lia.
Qed.

Lemma longest_trailing_run_le_length (l : list float) (c : nat) :
  Spec.longest_trailing_run p l c -> (c <= List.length l)%nat.
Proof.
  intros [(a & b & -> & _ & <-) _]. rewrite length_app. lia.
Qed.

Lemma count_le_length (l : list float) : (Spec.count p l <= List.length l)%nat.
Proof. apply filter_length_le. Qed.

Lemma count_snoc (l : list float) (t : float) :
  Spec.count p (l ++ [t]) = (Spec.count p l + if p t then 1 else 0)%nat.
Proof.
  unfold Spec.count. rewrite filter_app, length_app. simpl.
  now destruct (p t).
Qed.

End Runs.

(** ** The counting passes of [updateStats] *)

Section StatsCounters.

Import Stats.

Variable timeout : Z.
Variable deadTimeout : float.

(** A counter incremented on the samples that satisfy [p] does not wrap:
    it is bounded by the length of the slice. *)
Lemma count_fold (p : float -> bool) (l : list float) (c0 : Z) :
  0 <= c0 -> c0 + len l <= int_max ->
  fold_left (fun c t => if p t then incr c else c) l c0
  = c0 + Z.of_nat (Spec.count p l).
Proof.
  revert c0. induction l as [|t l IH]; intros c0 H0 Hle.
  - simpl. unfold Spec.count. simpl. lia.
  - cbn [fold_left]. unfold len in *. cbn [List.length] in Hle.
    unfold Spec.count in *. cbn [filter].
    destruct (p t).
    + rewrite incr_no_overflow by lia. rewrite IH by lia.
      cbn [List.length]. lia.
    + rewrite IH by lia. lia.
Qed.

Lemma count_step_pair (l : list float) (a b : Z) :
  fold_left (count_step timeout deadTimeout) l (a, b)
  = (fold_left (fun c t => if gtb t (float64_of_int timeout) && neqb t deadTimeout
                           then incr c else c) l a,
     fold_left (fun c t => if PrimFloat.eqb t deadTimeout then incr c else c) l b).
Proof.
  revert a b. induction l as [|t l IH]; intros a b; [reflexivity|].
  cbn [fold_left]. unfold count_step at 2. apply IH.
Qed.

Lemma count_ext (p q : float -> bool) (l : list float) :
  (forall t, p t = q t) -> Spec.count p l = Spec.count q l.
Proof. intros H. unfold Spec.count. now rewrite (filter_ext _ _ H). Qed.

(** The two counters of the second pass hold the number of valid samples
    above Timeout and the number of lost samples. *)
Lemma count_loop_counts (times : list float) :
  len times <= int_max ->
  count_loop timeout deadTimeout times
  = (Z.of_nat (Spec.count (Spec.exceeds timeout deadTimeout) times),
     Z.of_nat (Spec.count (Spec.lost deadTimeout) times)).
Proof.
  intros Hle. unfold count_loop. rewrite count_step_pair.
  rewrite (count_fold (fun t => gtb t (float64_of_int timeout) && neqb t deadTimeout))
    by lia.
  rewrite (count_fold (fun t => PrimFloat.eqb t deadTimeout)) by lia.
  rewrite !Z.add_0_l. f_equal. f_equal. apply count_ext. intros t.
  unfold Spec.exceeds, Spec.valid, Spec.lost, gtb, neqb. apply andb_comm.
Qed.

(** The test of the third pass, with its [else if] folded in. *)
Lemma seq_step_hit (s : SeqState) (t : float) :
  Spec.lost_or_timed_out timeout deadTimeout t = true ->
  seq_step timeout deadTimeout s t
  = mkSeq (maxSeq s) (incr (curSeq s)) (incr (totTimeout s)).
Proof.
  unfold Spec.lost_or_timed_out, Spec.lost, seq_step, geb, neqb.
  destruct (PrimFloat.eqb t deadTimeout); simpl.
  - now rewrite andb_false_r.
  - intros ->. reflexivity.
Qed.

Lemma seq_step_miss (s : SeqState) (t : float) :
  Spec.lost_or_timed_out timeout deadTimeout t = false ->
  seq_step timeout deadTimeout s t
  = mkSeq (if curSeq s >? maxSeq s then curSeq s else maxSeq s) 0 (totTimeout s).
Proof.
  unfold Spec.lost_or_timed_out, Spec.lost, seq_step, geb, neqb.
  destruct (PrimFloat.eqb t deadTimeout); simpl; [discriminate|].
  intros ->. reflexivity.
Qed.

Lemma Z_max_if (a b : nat) :
  (if Z.of_nat a >? Z.of_nat b then Z.of_nat a else Z.of_nat b)
  = Z.of_nat (Nat.max b a).
Proof. destruct (Z.gtb_spec (Z.of_nat a) (Z.of_nat b)); lia. Qed.

(** The invariant of the third pass, after the samples of [l]. *)
Lemma seq_loop_invariant (l : list float) :
  len l <= int_max ->
  exists m c : nat,
    seq_loop timeout deadTimeout l
    = mkSeq (Z.of_nat m) (Z.of_nat c)
            (Z.of_nat (Spec.count (Spec.lost_or_timed_out timeout deadTimeout) l)) /\
    Spec.longest_trailing_run (Spec.lost_or_timed_out timeout deadTimeout) l c /\
    Spec.longest_run (Spec.lost_or_timed_out timeout deadTimeout) l (Nat.max m c).
Proof.
  set (p := Spec.lost_or_timed_out timeout deadTimeout).
  induction l as [|t l IH] using rev_ind; intros Hle.
  - exists 0%nat, 0%nat. repeat split.
    + apply (longest_trailing_run_empty p).
    + apply (longest_trailing_run_empty p).
    + apply (longest_run_empty p).
    + apply (longest_run_empty p).
  - rewrite len_app in Hle. unfold len in Hle. cbn [List.length] in Hle.
    destruct IH as (m & c & Es & Htr & Hrun); [unfold len; lia|].
    pose proof (longest_trailing_run_le_length p l c Htr) as Hc.
    pose proof (count_le_length p l) as Hk.
    unfold seq_loop in *. rewrite fold_left_app. cbn [fold_left]. rewrite Es.
    destruct (p t) eqn:Ht.
    + exists m, (S c). rewrite seq_step_hit by exact Ht. cbn [maxSeq curSeq totTimeout].
      rewrite !incr_no_overflow by lia.
      rewrite (count_snoc p). fold p. rewrite Ht.
      repeat split.
      * f_equal; lia.
      * now apply longest_trailing_run_hit.
      * now apply longest_trailing_run_hit.
      * now apply longest_run_hit.
      * now apply longest_run_hit.
    + exists (Nat.max m c), 0%nat. rewrite seq_step_miss by exact Ht.
      cbn [maxSeq curSeq totTimeout]. rewrite Z_max_if.
      rewrite (count_snoc p). fold p. rewrite Ht, Nat.add_0_r, Nat.max_0_r.
      repeat split.
      * now apply longest_trailing_run_miss.
      * now apply longest_trailing_run_miss.
      * now apply longest_run_miss.
      * now apply longest_run_miss.
Qed.

End StatsCounters.

(** ** Equality tests of [float64] *)

Section FloatEquality.

Lemma lex_compare_refl e m : lex_compare e m e m = Eq.
Proof.
  unfold lex_compare. rewrite Z.compare_refl.
  change (PosDef.Pos.compare_cont Eq) with Pos.compare. apply Pos.compare_refl.
Qed.

Lemma lex_compare_Eq e1 m1 e2 m2 :
  lex_compare e1 m1 e2 m2 = Eq -> e1 = e2 /\ m1 = m2.
Proof.
  unfold lex_compare. change (PosDef.Pos.compare_cont Eq) with Pos.compare.
  destruct (Z.compare_spec e1 e2) as [He|He|He]; try discriminate.
  intros H. apply Pos.compare_eq in H. auto.
Qed.

Lemma SFcompare_refl (a : spec_float) : a <> S754_nan -> SFcompare a a = Some Eq.
Proof.
  destruct a as [s|s| |s m e]; simpl; intros H; try reflexivity; try contradiction.
  - now destruct s.
  - destruct s.
    + now rewrite CompOpp_lex_compare, lex_compare_refl.
    + fold (lex_compare e m e m). now rewrite lex_compare_refl.
Qed.

(** Whatever compares equal to something is equal to itself: it is no NaN. *)
Lemma eqb_true_refl_r (a b : float) :
  PrimFloat.eqb a b = true -> PrimFloat.eqb b b = true.
Proof.
  rewrite !FloatAxioms.eqb_spec. unfold SFeqb. intros H.
  assert (Hb : Prim2SF b <> S754_nan).
  { intros E. rewrite E in H. now destruct (Prim2SF a). }
  now rewrite (SFcompare_refl _ Hb).
Qed.

Lemma leb_true_refl_r (a b : float) :
  PrimFloat.leb a b = true -> PrimFloat.eqb b b = true.
Proof.
  rewrite FloatAxioms.leb_spec, FloatAxioms.eqb_spec. unfold SFleb, SFeqb. intros H.
  assert (Hb : Prim2SF b <> S754_nan).
  { intros E. rewrite E in H. now destruct (Prim2SF a). }
  now rewrite (SFcompare_refl _ Hb).
Qed.

(** [==] against a finite non-zero number is equality of the bits. *)
Lemma eqb_finite_eq (a b : float) s m e :
  Prim2SF a = S754_finite s m e -> PrimFloat.eqb a b = true -> b = a.
Proof.
  intros Ea. rewrite FloatAxioms.eqb_spec, Ea. unfold SFeqb. intros H.
  apply Prim2SF_inj. rewrite Ea.
  destruct (Prim2SF b) as [sb|sb| |sb mb eb]; simpl in H;
    try discriminate; try (destruct s; discriminate);
    try (destruct s, sb; discriminate).
  destruct s, sb; try discriminate.
  - rewrite CompOpp_lex_compare in H.
    destruct (lex_compare e m eb mb) eqn:E; try discriminate.
    apply lex_compare_Eq in E as [-> ->]. reflexivity.
  - fold (lex_compare e m eb mb) in H.
    destruct (lex_compare e m eb mb) eqn:E; try discriminate.
    apply lex_compare_Eq in E as [-> ->]. reflexivity.
Qed.

End FloatEquality.

(** ** The fields of the report *)

Section ReportFields.

Import Stats.

Variable timeout : Z.
Variable deadTimeout : float.
Variable times : list float.
Variable elapsed : float.

Let r := updateStats timeout deadTimeout times elapsed.
Let validTimes := validTimes_of deadTimeout times.

Ltac open_report :=
  subst r validTimes; unfold updateStats;
  repeat match goal with
         | |- context [minmax_loop ?l] => destruct (minmax_loop l)
         | |- context [count_loop ?a ?b ?c] => destruct (count_loop a b c)
         | |- context [len ?l >? ?k] => destruct (len l >? k)
         end.

Lemma report_maxSequentialTimeout :
  maxSequentialTimeout r = seq_final (seq_loop timeout deadTimeout times).
Proof. open_report; reflexivity. Qed.

Lemma report_totalTimeout :
  totalTimeout r = totTimeout (seq_loop timeout deadTimeout times).
Proof. open_report; reflexivity. Qed.

Lemma report_timesLost :
  timesLost r = snd (count_loop timeout deadTimeout times).
Proof.
  subst r. unfold updateStats.
  destruct (count_loop timeout deadTimeout times).
  repeat match goal with
         | |- context [minmax_loop ?l] => destruct (minmax_loop l)
         | |- context [len ?l >? ?k] => destruct (len l >? k)
         end; reflexivity.
Qed.

Lemma report_percentages :
  (percentageGreaterThanTimeout r, percentageLost r)
  = if len times >? 0 then
      ((float64_of_int (fst (count_loop timeout deadTimeout times))
        / float64_of_int (len times) * 100)%float,
       (float64_of_int (snd (count_loop timeout deadTimeout times))
        / float64_of_int (len times) * 100)%float)
    else (0%float, 0%float).
Proof.
  subst r. unfold updateStats.
  destruct (count_loop timeout deadTimeout times).
  repeat match goal with
         | |- context [minmax_loop ?l] => destruct (minmax_loop l)
         | |- context [len ?l >? ?k] => destruct (len l >? k)
         end; reflexivity.
Qed.

Lemma report_empty_valid :
  validTimes = [] ->
  avgTime r = 0%float /\ minTime r = 0%float /\ maxTime r = 0%float /\
  stdDev r = 0%float /\ jitter r = 0%float.
Proof.
  intros E. subst r validTimes. unfold updateStats. rewrite E.
  change (len (@nil float) >? 0) with false. cbv iota.
  destruct (count_loop timeout deadTimeout times).
  destruct (len times >? 0); repeat split; reflexivity.
Qed.

Lemma report_nonempty_valid :
  validTimes <> [] ->
  let avg := (sum_loop validTimes / float64_of_int (len validTimes))%float in
  avgTime r = avg /\
  minTime r = fst (minmax_loop validTimes) /\
  maxTime r = snd (minmax_loop validTimes) /\
  stdDev r = PrimFloat.sqrt (sumSquares_loop avg validTimes
                             / float64_of_int (len validTimes))%float /\
  jitter r = if len validTimes >? 1
             then (sumDiffs_loop validTimes (List.length validTimes - 1) 1 0
                   / float64_of_int (len validTimes - 1))%float
             else 0%float.
Proof.
  intros Hne. subst r. unfold updateStats. fold validTimes.
  assert (Hpos : (len validTimes >? 0) = true).
  { destruct validTimes; [contradiction|]. apply Z.gtb_lt.
    unfold len. cbn [List.length]. lia. }
  rewrite Hpos.
  destruct (minmax_loop validTimes).
  destruct (count_loop timeout deadTimeout times).
  destruct (len times >? 0); repeat split; reflexivity.
Qed.

End ReportFields.

(** ** The statistics *)

Section StatsClaims.

Import Stats.

(** C2. The longest-run statistic of [updateStats] is the length of a
    longest contiguous run, in the order of the unfiltered series, of
    samples that are lost or have latency at least Timeout; for the series
    [lost, 5, lost, lost, 5] with Timeout = 100 (and a sentinel not below
    it) it is 2. *)
Theorem C2_longest_run
        (timeout : Z) (deadTimeout : float) (times : list float) (elapsed : float) :
  len times <= int_max ->
  let r := updateStats timeout deadTimeout times elapsed in
  (exists m : nat,
      maxSequentialTimeout r = Z.of_nat m /\
      Spec.longest_run (Spec.lost_or_timed_out timeout deadTimeout) times m) /\
  (timeout = 100 ->
   PrimFloat.leb (float64_of_int timeout) deadTimeout = true ->
   times = [deadTimeout; 5; deadTimeout; deadTimeout; 5]%float ->
   maxSequentialTimeout r = 2).
Proof.
  intros Hle r. subst r. rewrite report_maxSequentialTimeout. split.
  - destruct (seq_loop_invariant timeout deadTimeout times Hle) as (m & c & Es & _ & Hrun).
    exists (Nat.max m c). split; [|exact Hrun].
    rewrite Es. unfold seq_final. cbn [maxSeq curSeq]. apply Z_max_if.
  - intros -> HD ->.
    assert (Hlost : Spec.lost_or_timed_out 100 deadTimeout deadTimeout = true).
    { unfold Spec.lost_or_timed_out, Spec.lost.
      now rewrite (leb_true_refl_r _ _ HD). }
    assert (Hfive : Spec.lost_or_timed_out 100 deadTimeout 5%float = false).
    { unfold Spec.lost_or_timed_out, Spec.lost.
      destruct (PrimFloat.eqb 5 deadTimeout) eqn:E.
      - assert (E5 : Prim2SF 5 = S754_finite false 5629499534213120 (-50))
          by (vm_compute; reflexivity).
        rewrite (eqb_finite_eq _ _ _ _ _ E5 E) in HD. vm_compute in HD. discriminate.
      - vm_compute. reflexivity. }
    unfold seq_loop. cbn [fold_left].
    repeat first [ rewrite (seq_step_hit 100 deadTimeout _ deadTimeout Hlost)
                 | rewrite (seq_step_miss 100 deadTimeout _ 5%float Hfive) ].
    reflexivity.
Qed.

Lemma C2_longest_run_witness :
  maxSequentialTimeout
    (updateStats 100 500 [500; 5; 500; 500; 5]%float 0) = 2.
Proof.
  apply (C2_longest_run 100 500 [500; 5; 500; 500; 5]%float 0).
  - vm_compute. discriminate.
  - reflexivity.
  - vm_compute. reflexivity.
  - reflexivity.
Defined.

(** C3. With at least two valid samples, the jitter of [updateStats] is
    the mean of the absolute differences of adjacent elements of the
    filtered valid list, in emission order; for the valid latencies
    [10, 20, 30] it is 10. *)
Theorem C3_jitter
        (timeout : Z) (deadTimeout : float) (times : list float) (elapsed : float) :
  let valid := filter (Spec.valid deadTimeout) times in
  (2 <= List.length valid)%nat ->
  let r := updateStats timeout deadTimeout times elapsed in
  jitter r = Spec.mean (Spec.adjacent_abs_diffs valid) /\
  (valid = [10; 20; 30]%float -> jitter r = 10%float).
Proof.
  intros valid Hlen r.
  assert (Hj : jitter r = Spec.mean (Spec.adjacent_abs_diffs valid)).
  { subst r.
    destruct (report_nonempty_valid timeout deadTimeout times elapsed)
      as (_ & _ & _ & _ & ->).
    { rewrite validTimes_of_filter. fold valid. destruct valid; [simpl in Hlen; lia|discriminate]. }
    rewrite validTimes_of_filter. fold valid.
    assert (H1 : (len valid >? 1) = true)
      by (apply Z.gtb_lt; unfold len; lia).
    rewrite H1. unfold Spec.mean, Spec.sum. f_equal.
    - destruct valid as [|a rest]; [simpl in Hlen; lia|].
      replace (List.length (a :: rest) - 1)%nat with (List.length rest)
        by (cbn [List.length]; lia).
      apply (sumDiffs_loop_adjacent rest [] a 0%float).
    - f_equal. unfold len. rewrite adjacent_abs_diffs_length. lia. }
  split; [exact Hj|].
  intros E. rewrite Hj, E. vm_compute. reflexivity.
Qed.

Lemma C3_jitter_witness :
  jitter (updateStats 150 500 [10; 500; 20; 500; 30]%float 0) = 10%float.
Proof.
  apply (C3_jitter 150 500 [10; 500; 20; 500; 30]%float 0).
  - vm_compute. lia.
  - vm_compute. reflexivity.
Defined.

(** C4. [updateStats] computes the average as the arithmetic mean of the
    valid samples, the minimum and the maximum over the valid samples
    only, and the standard deviation as the population standard deviation
    (squared deviations divided by the count of valid samples); with no
    valid sample all of them, and the jitter, are 0; for the valid
    latencies [10, 20, 30] the average is 20, the minimum 10, the maximum
    30 and the standard deviation is 8.165 to three decimals. *)
Theorem C4_average_min_max_stddev
        (timeout : Z) (deadTimeout : float) (times : list float) (elapsed : float) :
  let valid := filter (Spec.valid deadTimeout) times in
  let r := updateStats timeout deadTimeout times elapsed in
  (valid = [] ->
   avgTime r = 0%float /\ minTime r = 0%float /\ maxTime r = 0%float /\
   stdDev r = 0%float /\ jitter r = 0%float) /\
  (valid <> [] ->
   avgTime r = Spec.mean valid /\
   Spec.is_min valid (minTime r) /\
   Spec.is_max valid (maxTime r) /\
   stdDev r = Spec.population_std_dev valid) /\
  (valid = [10; 20; 30]%float ->
   avgTime r = 20%float /\ minTime r = 10%float /\ maxTime r = 30%float /\
   PrimFloat.ltb (PrimFloat.abs (stdDev r * 1000 - 8165)) 1 = true).
Proof.
  intros valid r.
  assert (Hne : valid <> [] ->
                avgTime r = Spec.mean valid /\
                minTime r = fst (minmax_loop valid) /\
                maxTime r = snd (minmax_loop valid) /\
                stdDev r = Spec.population_std_dev valid).
  { intros Hv. subst r.
    destruct (report_nonempty_valid timeout deadTimeout times elapsed)
      as (Ha & Hmin & Hmax & Hsd & _).
    { rewrite validTimes_of_filter. exact Hv. }
    rewrite validTimes_of_filter in *. fold valid in Ha, Hmin, Hmax, Hsd.
    repeat split; try assumption.
    rewrite Hsd. unfold Spec.population_std_dev, Spec.mean, Spec.sum, sumSquares_loop.
    now rewrite sumSquares_fold. }
  split; [|split].
  - intros E. subst r. apply report_empty_valid.
    rewrite validTimes_of_filter. exact E.
  - intros Hv. destruct (Hne Hv) as (Ha & Hmin & Hmax & Hsd).
    destruct (minmax_loop_extrema valid Hv) as [Hmn Hmx].
    rewrite Hmin, Hmax. auto.
  - intros E. destruct Hne as (Ha & Hmin & Hmax & Hsd).
    { rewrite E. discriminate. }
    rewrite Ha, Hmin, Hmax, Hsd, E. vm_compute. auto.
Qed.

Lemma C4_average_min_max_stddev_witness :
  let r := updateStats 150 500 [10; 500; 20; 30; 500]%float 0 in
  avgTime r = 20%float /\ minTime r = 10%float /\ maxTime r = 30%float /\
  PrimFloat.ltb (PrimFloat.abs (stdDev r * 1000 - 8165)) 1 = true.
Proof.
  pose proof (C4_average_min_max_stddev 150 500 [10; 500; 20; 30; 500]%float 0)
    as (_ & _ & H).
  apply H. vm_compute. reflexivity.
Defined.

(** C5. [updateStats] computes the percentage exceeding Timeout as the
    number of valid samples with latency strictly above Timeout, divided
    by the number of samples, times 100, and the percentage lost as the
    number of lost samples, divided by the number of samples, times 100;
    both are 0 for the empty series. *)
Theorem C5_percentages
        (timeout : Z) (deadTimeout : float) (times : list float) (elapsed : float) :
  len times <= int_max ->
  let r := updateStats timeout deadTimeout times elapsed in
  (times = [] ->
   percentageGreaterThanTimeout r = 0%float /\ percentageLost r = 0%float) /\
  (times <> [] ->
   percentageGreaterThanTimeout r
   = Spec.percentage (Spec.count (Spec.exceeds timeout deadTimeout) times)
                     (List.length times) /\
   percentageLost r
   = Spec.percentage (Spec.count (Spec.lost deadTimeout) times)
                     (List.length times)).
Proof.
  intros Hle r.
  pose proof (report_percentages timeout deadTimeout times elapsed) as H.
  fold r in H. rewrite (count_loop_counts _ _ _ Hle) in H. cbn [fst snd] in H.
  split.
  - intros E. subst times. split; reflexivity.
  - intros Hne.
    assert (Hpos : (len times >? 0) = true).
    { destruct times; [contradiction|]. apply Z.gtb_lt.
      unfold len. cbn [List.length]. lia. }
    rewrite Hpos in H.
    pose proof (f_equal fst H) as H1. pose proof (f_equal snd H) as H2.
    cbn [fst snd] in H1, H2. split; assumption.
Qed.

Lemma C5_percentages_witness :
  percentageGreaterThanTimeout (updateStats 150 500 [10; 500; 200; 500]%float 0)
  = 25%float /\
  percentageLost (updateStats 150 500 [10; 500; 200; 500]%float 0) = 50%float.
Proof.
  destruct (C5_percentages 150 500 [10; 500; 200; 500]%float 0) as [_ H].
  - vm_compute. discriminate.
  - destruct H as [H1 H2]; [discriminate|].
    rewrite H1, H2. vm_compute. auto.
Defined.

End StatsClaims.

(** ** One iteration of the probe loop *)

Section ProbeCycle.

Import Probe.

Variable timeout : Z.
Variable deadTimeout : float.
Variable interval : float.
Variable useIPv6 : bool.
Variable id : Z.

Local Abbreviation cycle := (Probe.ping_cycle timeout deadTimeout interval useIPv6 id).
Local Abbreviation loop := (Probe.ping_loop timeout deadTimeout interval useIPv6 id).
Local Abbreviation ping_fn := (Probe.ping timeout deadTimeout interval useIPv6 id).

Lemma is_echo_reply_switch (ty : ICMPType) :
  ICMPType_eqb ty ipv4_ICMPTypeEchoReply || ICMPType_eqb ty ipv6_ICMPTypeEchoReply
  = Spec.is_echo_reply ty.
Proof.
  destruct ty as [n|n]; unfold ICMPType_eqb, ipv4_ICMPTypeEchoReply,
    ipv6_ICMPTypeEchoReply, Spec.is_echo_reply.
  - rewrite orb_false_r. destruct n as [|q|q]; reflexivity.
  - simpl. destruct (Z.eqb_spec n 129) as [->|Hn]; [reflexivity|].
    destruct n as [|q|q]; try reflexivity.
    repeat (destruct q as [q|q|]; try reflexivity). contradiction.
Qed.

(** What [record] changes. *)
Lemma record_effect (v : float) (st : State) :
  times (record v st) = times st ++ [v] /\
  pings (record v st) = pings st ++ [pingCount st] /\
  running (record v st) = running st /\
  pingCount (record v st) = pingCount st /\
  trace (record v st) = trace st ++ [EvLock; EvUnlock].
Proof. unfold record, emit. cbn. rewrite <- app_assoc. auto. Qed.

(** A cycle whose request is marshalled runs to the final sleep and
    records exactly one sample, with the incremented sequence number. *)
Lemma ping_cycle_completes (env : CycleEnv) (st : State) :
  marshal_err env = false ->
  let st' := fst (cycle env st) in
  snd (cycle env st) = NextIteration /\
  times st' = times st ++ [Spec.sample deadTimeout env] /\
  pings st' = pings st ++ [incr (pingCount st)] /\
  running st' = running st /\
  pingCount st' = incr (pingCount st) /\
  last (trace st') EvLock = EvSleep (interval * 1000000000)%float.
Proof.
  intros Hm. unfold Probe.ping_cycle, Spec.sample, Spec.latency. rewrite Hm.
  rewrite is_echo_reply_switch.
  destruct (write_err env).
  - cbn. repeat split; try reflexivity. apply last_last.
  - destruct (negb (write_n env =? msgBytes_len env));
      destruct (read_err env) as [[|]|];
      try destruct (parse_err env);
      try destruct (Spec.is_echo_reply (receivedMsg_Type env));
      try destruct (gtb _ _);
      cbn; repeat split; try reflexivity; apply last_last.
Qed.

(** A cycle whose request cannot be marshalled records nothing, clears
    the running flag and returns. *)
Lemma ping_cycle_marshal_error (env : CycleEnv) (st : State) :
  marshal_err env = true ->
  cycle env st
  = (mkState (times st) (pings st) false (incr (pingCount st))
             (trace st ++ [EvPrintf PrMarshalError]), Return).
Proof. intros Hm. unfold Probe.ping_cycle. rewrite Hm. reflexivity. Qed.

End ProbeCycle.

(** ** The probe loop *)

Section ProbeLoop.

Import Probe.

Variable timeout : Z.
Variable deadTimeout : float.
Variable interval : float.
Variable useIPv6 : bool.
Variable id : Z.

Local Abbreviation cycle := (Probe.ping_cycle timeout deadTimeout interval useIPv6 id).
Local Abbreviation loop := (Probe.ping_loop timeout deadTimeout interval useIPv6 id).
Local Abbreviation ping_fn := (Probe.ping timeout deadTimeout interval useIPv6 id).

Lemma seq_numbers_snoc (n : nat) :
  Spec.seq_numbers (S n) = Spec.seq_numbers n ++ [Z.of_nat n + 1].
Proof.
  unfold Spec.seq_numbers. rewrite seq_S, map_app. cbn [map]. f_equal. f_equal. lia.
Qed.

Lemma seq_numbers_length (n : nat) : List.length (Spec.seq_numbers n) = n.
Proof. unfold Spec.seq_numbers. now rewrite length_map, length_seq. Qed.

Lemma ping_loop_numbering (envs : list CycleEnv) (st : State) :
  Spec.at_loop_test st ->
  len (times st) + len envs <= int_max ->
  let st' := loop envs st in
  pings st' = Spec.seq_numbers (List.length (times st')) /\
  (List.length (times st') <= List.length (times st) + List.length envs)%nat.
Proof.
  revert st. induction envs as [|env envs IH]; intros st [Hp Hc] Hle.
  - cbn. split; [exact Hp|lia].
  - cbn [Probe.ping_loop].
    unfold len in Hle, Hc. cbn [List.length] in Hle.
    set (st0 := if running_cleared env then set_running false st else st).
    assert (H0 : times st0 = times st /\ pings st0 = pings st
                 /\ pingCount st0 = pingCount st).
    { unfold st0. destruct (running_cleared env); cbn; auto. }
    destruct H0 as (Ht0 & Hp0 & Hc0). clearbody st0.
    destruct (running st0).
    + destruct (marshal_err env) eqn:Hm.
      * rewrite ping_cycle_marshal_error by exact Hm. cbn.
        rewrite Ht0, Hp0. split; [exact Hp|lia].
      * pose proof (ping_cycle_completes timeout deadTimeout interval useIPv6 id
                      env st0 Hm) as H.
        cbn zeta in H. destruct (cycle env st0) as [st1 fl].
        cbn [fst snd] in H. destruct H as (-> & Ht1 & Hp1 & _ & Hc1 & _).
        assert (Hinc : incr (pingCount st0) = Z.of_nat (List.length (times st)) + 1).
        { rewrite Hc0, Hc. apply incr_no_overflow. unfold int_max in *. lia. }
        destruct (IH st1) as [Hp' Hlen'].
        { split.
          - rewrite Hp1, Ht1, Hp0, Ht0, Hp, Hinc, length_app. cbn [List.length].
            rewrite Nat.add_1_r. now rewrite seq_numbers_snoc.
          - rewrite Hc1, Hinc, Ht1, Ht0. unfold len. rewrite length_app.
            cbn [List.length]. lia. }
        { rewrite Ht1, Ht0. unfold len. rewrite length_app.
          cbn [List.length]. lia. }
        split; [exact Hp'|].
        rewrite Ht1, Ht0, length_app in Hlen'. cbn [List.length] in *. lia.
    + rewrite Ht0, Hp0. split; [exact Hp|lia].
Qed.

(** While every cycle completes, the loop records the sample of each
    cycle, in order. *)
Lemma ping_loop_completed (envs : list CycleEnv) (st : State) :
  running st = true ->
  Forall Spec.completes envs ->
  let st' := loop envs st in
  times st' = times st ++ map (Spec.sample deadTimeout) envs /\
  running st' = true.
Proof.
  revert st. induction envs as [|env envs IH]; intros st Hr Hall.
  - cbn. now rewrite app_nil_r.
  - inversion Hall as [|? ? [Hrc Hm] Hrest]; subst.
    cbn [Probe.ping_loop]. rewrite Hrc, Hr.
    pose proof (ping_cycle_completes timeout deadTimeout interval useIPv6 id
                  env st Hm) as H.
    cbn zeta in H. destruct (cycle env st) as [st1 fl].
    cbn [fst snd] in H. destruct H as (-> & Ht1 & _ & Hr1 & _).
    destruct (IH st1) as [Ht' Hr']; [congruence|exact Hrest|].
    split; [|exact Hr'].
    rewrite Ht', Ht1, <- app_assoc. reflexivity.
Qed.

End ProbeLoop.

(** ** The probe engine *)

Section ProbeClaims.

Import Probe.

(** C1. Every cycle of the probe loop that reaches an outcome (echo reply,
    send failure, timeout, receive error, parse failure, non-echo reply)
    appends exactly one entry to [times] and the matching sequence number
    to [pings]; in every execution the two lists have the same length and
    the sequence numbers are 1, 2, ... without a gap; after N completed
    cycles both have length N and the numbers are 1..N. *)
Theorem C1_one_entry_per_cycle
        (timeout : Z) (deadTimeout interval : float) (useIPv6 : bool) (id : Z)
        (envs : list CycleEnv) :
  len envs <= int_max ->
  let cycle := ping_cycle timeout deadTimeout interval useIPv6 id in
  let st := ping_loop timeout deadTimeout interval useIPv6 id envs init in
  (forall env st0,
      marshal_err env = false ->
      times (fst (cycle env st0)) = times st0 ++ [Spec.sample deadTimeout env] /\
      pings (fst (cycle env st0)) = pings st0 ++ [incr (pingCount st0)]) /\
  List.length (pings st) = List.length (times st) /\
  pings st = Spec.seq_numbers (List.length (times st)) /\
  (Forall Spec.completes envs ->
   times st = map (Spec.sample deadTimeout) envs /\
   List.length (times st) = List.length envs /\
   pings st = Spec.seq_numbers (List.length envs)).
Proof.
  intros Hle cycle st.
  assert (Hnum : pings st = Spec.seq_numbers (List.length (times st))).
  { apply (ping_loop_numbering timeout deadTimeout interval useIPv6 id envs init).
    - split; reflexivity.
    - cbn. exact Hle. }
  split; [|split; [|split]].
  - intros env st0 Hm.
    destruct (ping_cycle_completes timeout deadTimeout interval useIPv6 id env st0 Hm)
      as (_ & Ht & Hp & _).
    split; assumption.
  - rewrite Hnum. apply seq_numbers_length.
  - exact Hnum.
  - intros Hall.
    destruct (ping_loop_completed timeout deadTimeout interval useIPv6 id envs init)
      as [Ht _]; [reflexivity|exact Hall|].
    cbn [times init app] in Ht. fold st in Ht.
    assert (Hlen : List.length (times st) = List.length envs)
      by (rewrite Ht; apply length_map).
    repeat split; try assumption. now rewrite <- Hlen.
Qed.

Lemma C1_one_entry_per_cycle_witness :
  let st := ping_loop 150 500 0.5 false 4242 Examples.six_outcomes init in
  times st = [12; 500; 500; 500; 500; 500]%float /\
  pings st = [1; 2; 3; 4; 5; 6].
Proof.
  destruct (C1_one_entry_per_cycle 150 500 0.5 false 4242 Examples.six_outcomes)
    as (_ & _ & _ & H).
  - vm_compute. discriminate.
  - destruct H as (Ht & _ & Hp).
    + repeat constructor.
    + cbn zeta. rewrite Ht, Hp. vm_compute. auto.
Defined.

(** C7. When a reply is received before the deadline: if it cannot be
    parsed or is no echo reply, the cycle records the sentinel; if it is
    an echo reply, the cycle records the measured send-to-receipt time in
    (whole) milliseconds, also when that exceeds Timeout. *)
Theorem C7_classify
        (timeout : Z) (deadTimeout interval : float) (useIPv6 : bool) (id : Z)
        (env : CycleEnv) (st : State) :
  marshal_err env = false -> write_err env = false -> read_err env = None ->
  let st' := fst (ping_cycle timeout deadTimeout interval useIPv6 id env st) in
  let delay := float64_of_int (Milliseconds (duration env)) in
  (parse_err env = true \/ Spec.is_echo_reply (receivedMsg_Type env) = false ->
   times st' = times st ++ [deadTimeout]) /\
  (parse_err env = false -> Spec.is_echo_reply (receivedMsg_Type env) = true ->
   times st' = times st ++ [delay] /\
   (gtb delay (float64_of_int timeout) = true ->
    In (EvPrintf (PrExceeded delay timeout)) (trace st'))).
Proof.
  intros Hm Hw Hr st' delay.
  destruct (ping_cycle_completes timeout deadTimeout interval useIPv6 id env st Hm)
    as (_ & Ht & _).
  fold st' in Ht. unfold Spec.sample, Spec.latency in Ht. rewrite Hw, Hr in Ht.
  split.
  - intros [Hp|He]; rewrite Ht.
    + now rewrite Hp.
    + rewrite He. now destruct (parse_err env).
  - intros Hp He. split; [now rewrite Ht, Hp, He|].
    intros Hgt. subst st'. unfold ping_cycle.
    rewrite Hm, Hw, Hr, Hp, is_echo_reply_switch, He. fold delay. rewrite Hgt.
    destruct (negb (write_n env =? msgBytes_len env)); cbn;
      apply in_or_app; left; apply in_or_app; right; left; reflexivity.
Qed.

Lemma C7_classify_witness :
  times (fst (ping_cycle 150 500 0.5 false 4242 Examples.env_slow_echo init))
  = [200%float] /\
  times (fst (ping_cycle 150 500 0.5 false 4242 Examples.env_non_echo init))
  = [500%float].
Proof.
  pose proof (C7_classify 150 500 0.5 false 4242 Examples.env_slow_echo init
                eq_refl eq_refl eq_refl) as [_ H1].
  pose proof (C7_classify 150 500 0.5 false 4242 Examples.env_non_echo init
                eq_refl eq_refl eq_refl) as [H2 _].
  split.
  - exact (proj1 (H1 eq_refl eq_refl)).
  - apply H2. right. reflexivity.
Defined.

(** C9. A failed send records the sentinel for the cycle, the cycle ends
    with the sleep of the normal interval and the loop goes on with the
    next cycle; a failure to open the socket, or to marshal the message,
    clears the running flag and returns; nothing else in [ping] clears the
    flag or returns. *)
Theorem C9_fatal_and_recoverable
        (timeout : Z) (deadTimeout interval : float) (useIPv6 : bool) (id : Z)
        (env : CycleEnv) (rest : list CycleEnv) (st : State) :
  running st = true -> running_cleared env = false ->
  let cycle := ping_cycle timeout deadTimeout interval useIPv6 id in
  let loop := ping_loop timeout deadTimeout interval useIPv6 id in
  (marshal_err env = false -> write_err env = true ->
   times (fst (cycle env st)) = times st ++ [deadTimeout] /\
   running (fst (cycle env st)) = true /\
   last (trace (fst (cycle env st))) EvLock = EvSleep (interval * 1000000000)%float /\
   loop (env :: rest) st = loop rest (fst (cycle env st))) /\
  (marshal_err env = true ->
   running (fst (cycle env st)) = false /\
   snd (cycle env st) = Return /\
   times (fst (cycle env st)) = times st /\
   loop (env :: rest) st = fst (cycle env st)) /\
  (let st' := ping timeout deadTimeout interval useIPv6 id true (env :: rest) st in
   running st' = false /\ times st' = times st /\ pingCount st' = pingCount st) /\
  (running (fst (cycle env st)) = false <-> marshal_err env = true) /\
  (snd (cycle env st) = Return <-> marshal_err env = true).
Proof.
  intros Hrun Hrc cycle loop.
  assert (Hok : marshal_err env = false ->
                snd (cycle env st) = NextIteration /\
                running (fst (cycle env st)) = true).
  { intros Hm.
    destruct (ping_cycle_completes timeout deadTimeout interval useIPv6 id env st Hm)
      as (Hfl & _ & _ & Hr & _).
    split; [exact Hfl|]. fold cycle in Hr. congruence. }
  assert (Hbad : marshal_err env = true ->
                 cycle env st
                 = (mkState (times st) (pings st) false (incr (pingCount st))
                            (trace st ++ [EvPrintf PrMarshalError]), Return)).
  { apply ping_cycle_marshal_error. }
  split; [|split; [|split; [|split]]].
  - intros Hm Hw.
    destruct (ping_cycle_completes timeout deadTimeout interval useIPv6 id env st Hm)
      as (Hfl & Ht & _ & Hr & _ & Hsl).
    fold cycle in Hfl, Ht, Hr, Hsl.
    unfold Spec.sample in Ht. rewrite Hw in Ht.
    repeat split; try assumption; try congruence.
    subst loop. cbn [ping_loop]. rewrite Hrc, Hrun. fold cycle.
    destruct (cycle env st) as [st1 fl]. cbn [fst snd] in *. now rewrite Hfl.
  - intros Hm. specialize (Hbad Hm).
    subst loop. cbn [ping_loop]. rewrite Hrc, Hrun. fold cycle.
    rewrite Hbad. cbn. auto.
  - unfold ping. cbn. auto.
  - destruct (marshal_err env) eqn:Hm.
    + rewrite (Hbad eq_refl). cbn. split; reflexivity.
    + destruct (Hok eq_refl) as [_ Hr]. rewrite Hr. split; discriminate.
  - destruct (marshal_err env) eqn:Hm.
    + rewrite (Hbad eq_refl). cbn. split; reflexivity.
    + destruct (Hok eq_refl) as [Hfl _]. rewrite Hfl. split; discriminate.
Qed.

Lemma C9_fatal_and_recoverable_witness :
  let loop := ping_loop 150 500 0.5 false 4242 in
  (times (loop [Examples.env_send_failure; Examples.env_echo] init)
   = [500; 12]%float /\
   running (loop [Examples.env_send_failure; Examples.env_echo] init) = true) /\
  (times (loop [Examples.env_marshal_failure; Examples.env_echo] init) = [] /\
   running (loop [Examples.env_marshal_failure; Examples.env_echo] init) = false).
Proof.
  cbn zeta. split.
  - destruct (C9_fatal_and_recoverable 150 500 0.5 false 4242
                Examples.env_send_failure [Examples.env_echo] init)
      as ((_ & _ & _ & H) & _); try reflexivity.
    rewrite H. vm_compute. auto.
  - destruct (C9_fatal_and_recoverable 150 500 0.5 false 4242
                Examples.env_marshal_failure [Examples.env_echo] init)
      as (_ & (_ & _ & _ & H) & _); try reflexivity.
    rewrite H. vm_compute. auto.
Defined.

End ProbeClaims.

(** ** The sentinel *)

Section Sentinel.

Import Stats.

Variable timeout : Z.
Variable deadTimeout : float.

(** A sample that compares equal to the sentinel goes through every loop
    of [updateStats] as the sentinel does. *)
Lemma validTimes_of_snoc (l : list float) (x : float) :
  validTimes_of deadTimeout (l ++ [x])
  = if PrimFloat.eqb x deadTimeout
    then validTimes_of deadTimeout l
    else validTimes_of deadTimeout l ++ [x].
Proof.
  rewrite !validTimes_of_filter, filter_app. cbn [filter].
  unfold Spec.valid, Spec.lost.
  destruct (PrimFloat.eqb x deadTimeout); cbn; [apply app_nil_r|reflexivity].
Qed.

Lemma count_step_sentinel (c : Z * Z) (x : float) :
  PrimFloat.eqb x deadTimeout = true ->
  count_step timeout deadTimeout c x = (fst c, incr (snd c)).
Proof.
  intros E. destruct c as [a b]. unfold count_step, neqb.
  rewrite E. cbn [negb]. now rewrite andb_false_r.
Qed.

Lemma seq_step_sentinel (s : SeqState) (x : float) :
  PrimFloat.eqb x deadTimeout = true ->
  seq_step timeout deadTimeout s x
  = mkSeq (maxSeq s) (incr (curSeq s)) (incr (totTimeout s)).
Proof.
  intros E. apply seq_step_hit. unfold Spec.lost_or_timed_out, Spec.lost.
  now rewrite E.
Qed.

Lemma updateStats_sentinel_alike (l : list float) (x y elapsed : float) :
  PrimFloat.eqb x deadTimeout = true ->
  PrimFloat.eqb y deadTimeout = true ->
  updateStats timeout deadTimeout (l ++ [x]) elapsed
  = updateStats timeout deadTimeout (l ++ [y]) elapsed.
Proof.
  intros Ex Ey. unfold updateStats.
  rewrite !validTimes_of_snoc, Ex, Ey.
  unfold count_loop, seq_loop. rewrite !fold_left_app. cbn [fold_left].
  rewrite !count_step_sentinel, !seq_step_sentinel by assumption.
  rewrite !len_app. reflexivity.
Qed.

Lemma count_lost_snoc (l : list float) (x : float) :
  PrimFloat.eqb x deadTimeout = true ->
  Spec.count (Spec.lost deadTimeout) (l ++ [x])
  = S (Spec.count (Spec.lost deadTimeout) l).
Proof.
  intros E. rewrite count_snoc. unfold Spec.lost at 2. rewrite E. lia.
Qed.

Lemma timesLost_count (l : list float) (elapsed : float) :
  len l <= int_max ->
  timesLost (updateStats timeout deadTimeout l elapsed)
  = Z.of_nat (Spec.count (Spec.lost deadTimeout) l).
Proof.
  intros Hle. rewrite report_timesLost, count_loop_counts by exact Hle.
  reflexivity.
Qed.

End Sentinel.

Section SentinelClaim.

Import Stats Probe.

(** C6. [updateStats] tells valid from lost by comparing the value with
    the sentinel, and by nothing else: the valid samples are those that
    differ from DeadTimeout, the lost count is the number of those equal
    to it.  So an echo reply whose measured latency equals DeadTimeout is
    recorded as measured, is left out of the valid samples and is counted
    as lost, and the report is the one a true loss would give. *)
Theorem C6_sentinel_decides_validity
        (timeout : Z) (deadTimeout interval : float) (useIPv6 : bool) (id : Z)
        (env : CycleEnv) (st : State) (elapsed : float) :
  len (times st) < int_max ->
  marshal_err env = false -> write_err env = false -> read_err env = None ->
  parse_err env = false -> Spec.is_echo_reply (receivedMsg_Type env) = true ->
  PrimFloat.eqb (float64_of_int (Milliseconds (duration env))) deadTimeout = true ->
  let st' := fst (ping_cycle timeout deadTimeout interval useIPv6 id env st) in
  let report := fun l => updateStats timeout deadTimeout l elapsed in
  (forall l, validTimes_of deadTimeout l
             = filter (fun t => negb (PrimFloat.eqb t deadTimeout)) l) /\
  (forall l, len l <= int_max ->
             timesLost (report l)
             = Z.of_nat (List.length (filter (fun t => PrimFloat.eqb t deadTimeout) l))) /\
  times st' = times st ++ [float64_of_int (Milliseconds (duration env))] /\
  validTimes_of deadTimeout (times st') = validTimes_of deadTimeout (times st) /\
  timesLost (report (times st')) = timesLost (report (times st)) + 1 /\
  report (times st') = report (times st ++ [deadTimeout]).
Proof.
  intros Hle Hm Hw Hr Hp He Heq st' report.
  assert (Ht : times st' = times st ++ [float64_of_int (Milliseconds (duration env))]).
  { destruct (ping_cycle_completes timeout deadTimeout interval useIPv6 id env st Hm)
      as (_ & H & _).
    unfold Spec.sample, Spec.latency in H. now rewrite Hw, Hr, Hp, He in H. }
  split; [|split; [|split; [|split; [|split]]]].
  - intros l. apply validTimes_of_filter.
  - intros l Hl. subst report. cbv beta. now rewrite timesLost_count.
  - exact Ht.
  - rewrite Ht, validTimes_of_snoc, Heq. reflexivity.
  - subst report. cbv beta. rewrite !timesLost_count.
    + rewrite Ht, count_lost_snoc by exact Heq. lia.
    + lia.
    + rewrite Ht, len_app. unfold len at 2. cbn [List.length]. lia.
  - subst report. cbv beta. rewrite Ht.
    apply updateStats_sentinel_alike; [exact Heq|].
    exact (eqb_true_refl_r _ _ Heq).
Qed.

Lemma C6_sentinel_decides_validity_witness :
  let st' := fst (ping_cycle 500 500 0.5 false 4242 Examples.env_echo_at_sentinel
                             (mkState [20; 30]%float [1; 2] true 2 [])) in
  times st' = [20; 30; 500]%float /\
  validTimes_of 500 (times st') = [20; 30]%float /\
  timesLost (updateStats 500 500 (times st') 0) = 1.
Proof.
  pose proof (C6_sentinel_decides_validity 500 500 0.5 false 4242
                Examples.env_echo_at_sentinel
                (mkState [20; 30]%float [1; 2] true 2 []) 0) as H.
  cbn zeta in H.
  destruct H as (_ & _ & Ht & Hv & Hl & _); try reflexivity.
  cbn zeta. rewrite Hv, Hl, Ht. vm_compute. auto.
Defined.

End SentinelClaim.

(** ** Startup *)

Section StartupClaim.

Import Startup.

(** C8. Given a host argument, [main] leaves through the dead-timeout
    check, with exit status 1 and before any probe, exactly when
    DeadTimeout is above 10000 or below Timeout; with Timeout = 150 it
    rejects DeadTimeout = 100 and DeadTimeout = 20000 and lets
    DeadTimeout = 500 through to the resolution of the host. *)
Theorem C8_deadTimeout_range
        (host : string) (rest : list string) (timeout : Z) (deadTimeout : float)
        (useIPv6 : bool) (resolveHostname : string -> bool -> option string) :
  let run := fun W D => main (host :: rest) W D useIPv6 resolveHostname in
  (run timeout deadTimeout = ExitDeadTimeoutRange <->
   gtb deadTimeout 10000 = true
   \/ PrimFloat.ltb deadTimeout (float64_of_int timeout) = true) /\
  (run timeout deadTimeout = ExitDeadTimeoutRange ->
   exit_code (run timeout deadTimeout) = Some 1 /\
   probing (run timeout deadTimeout) = false) /\
  (resolveHostname host useIPv6 <> None ->
   (probing (run timeout deadTimeout) = false <->
    gtb deadTimeout 10000 = true
    \/ PrimFloat.ltb deadTimeout (float64_of_int timeout) = true)) /\
  run 150 100%float = ExitDeadTimeoutRange /\
  run 150 20000%float = ExitDeadTimeoutRange /\
  run 150 500%float = match resolveHostname host useIPv6 with
                      | None => ExitResolve
                      | Some resolvedHost => Run resolvedHost
                      end.
Proof.
  intros run. subst run. cbv beta.
  assert (Hcheck : deadTimeout_out_of_range timeout deadTimeout = true <->
                   gtb deadTimeout 10000 = true
                   \/ PrimFloat.ltb deadTimeout (float64_of_int timeout) = true).
  { unfold deadTimeout_out_of_range. apply orb_true_iff. }
  rewrite <- Hcheck. unfold main.
  split; [|split; [|split; [|split; [|split]]]].
  - destruct (deadTimeout_out_of_range timeout deadTimeout).
    + split; reflexivity.
    + split; [|discriminate].
      destruct (resolveHostname host useIPv6); discriminate.
  - destruct (deadTimeout_out_of_range timeout deadTimeout).
    + split; reflexivity.
    + destruct (resolveHostname host useIPv6); discriminate.
  - intros Hres. destruct (deadTimeout_out_of_range timeout deadTimeout).
    + split; reflexivity.
    + destruct (resolveHostname host useIPv6); [|contradiction].
      split; discriminate.
  - reflexivity.
  - reflexivity.
  - reflexivity.
Qed.

Lemma C8_deadTimeout_range_witness :
  let resolve := fun (_ : string) (_ : bool) => Some "192.0.2.7"%string in
  let run := fun D => main ["example.org"%string] 150 D false resolve in
  run 100%float = ExitDeadTimeoutRange /\
  run 20000%float = ExitDeadTimeoutRange /\
  run 500%float = Run "192.0.2.7"%string.
Proof.
  pose proof (C8_deadTimeout_range "example.org"%string [] 150 500 false
                (fun _ _ => Some "192.0.2.7"%string))
    as (_ & _ & _ & H1 & H2 & H3).
  cbn zeta. repeat split; assumption.
Defined.

End StartupClaim.

(** ** The goroutines *)

Section Goroutines.

Import Sched.

Lemma prefix_refl (a : list float) : prefix a a.
Proof. exists []. now rewrite app_nil_r. Qed.

Lemma prefix_snoc (a b : list float) (v : float) : prefix a b -> prefix a (b ++ [v]).
Proof. intros [r ->]. exists (r ++ [v]). now rewrite app_assoc. Qed.

Lemma prefix_length (a b : list float) :
  prefix a b -> (List.length a <= List.length b)%nat.
Proof. intros [r ->]. rewrite length_app. lia. Qed.

Lemma Forall_prefix_snoc (cs : list (list float)) (t : list float) (v : float) :
  Forall (fun d => prefix d t) cs -> Forall (fun d => prefix d (t ++ [v])) cs.
Proof.
  intros H. eapply Forall_impl; [|exact H]. intros d. apply prefix_snoc.
Qed.

Lemma StronglySorted_snoc {A : Type} (R : A -> A -> Prop) (l : list A) (x : A) :
  StronglySorted R l -> Forall (fun d => R d x) l -> StronglySorted R (l ++ [x]).
Proof.
  induction 1 as [|a l Hl IH Ha]; intros Hx; cbn.
  - constructor; constructor.
  - inversion Hx; subst. constructor.
    + now apply IH.
    + apply Forall_app. split; [assumption|]. constructor; [assumption|constructor].
Qed.

Lemma invariant_init : invariant init.
Proof. repeat split; constructor. Qed.

Ltac step_cases H :=
  unfold step, step_prober, step_renderer, step_signals in H;
  repeat match type of H with
         | context [match ?x with _ => _ end] =>
             match x with
             | exited _ => destruct x eqn:?
             | p_pc _ => destruct x eqn:?
             | r_pc _ => destruct x eqn:?
             | s_pc _ => destruct x eqn:?
             | mutex _ => destruct x eqn:?
             | _ => is_var x; destruct x
             end
         | context [if exited ?c then _ else _] => destruct (exited c) eqn:?
         end;
  try discriminate H; injection H as <- <-.

Ltac finish_invariant :=
  repeat match goal with
         | E : p_pc ?c = _ |- _ => try rewrite E in *; clear E
         | E : r_pc ?c = _ |- _ => try rewrite E in *; clear E
         end;
  repeat match goal with
         | |- context [if running ?c then _ else _] => destruct (running c)
         | |- context [if ?b then set_exited _ else _] => destruct b
         | |- context [if len ?d >=? 2 then _ else _] => destruct (len d >=? 2)
         | H : mutex ?c = Some _, H' : mutex ?c = _ |- _ => rewrite H in H'
         | H : mutex ?c = None, H' : mutex ?c = _ |- _ => rewrite H in H'
         end;
  cbn in *;
  repeat match goal with
         | H : context [p_inside (p_pc ?c)] |- _ => destruct (p_inside (p_pc c))
         | H : context [r_inside (r_pc ?c)] |- _ => destruct (r_inside (r_pc c))
         end;
  cbn in *; try discriminate;
  repeat split;
  try assumption; try reflexivity; try congruence;
  try (rewrite ?length_app in *; cbn in *; lia);
  try (apply Forall_prefix_snoc; assumption);
  try (apply Forall_app; split; [assumption|constructor; [apply prefix_refl|constructor]]);
  try (apply StronglySorted_snoc; assumption).

(** Every step keeps the invariant. *)
Lemma step_invariant (ch : Choice) (c c' : Config) (l : Label) :
  invariant c -> step ch c = Some (c', l) -> invariant c'.
Proof.
  intros (Hm & Hx & Hlen & Hpre & Hsort) H.
  step_cases H.
  all: unfold invariant; cbn.
  all: finish_invariant.
Qed.

(** Every step keeps the discipline. *)
Lemma step_disciplined (ch : Choice) (c c' : Config) (l : Label) :
  invariant c -> step ch c = Some (c', l) -> disciplined l.
Proof.
  intros (Hm & Hx & _) H.
  step_cases H.
  all: unfold disciplined, label, holds; cbn.
  all: repeat match goal with
              | E : p_pc ?c = _ |- _ => try rewrite E in *; clear E
              | E : r_pc ?c = _ |- _ => try rewrite E in *; clear E
              end.
  all: cbn in Hm, Hx.
  all: split; intros Hacc; repeat destruct Hacc as [Hacc|Hacc]; try discriminate Hacc.
  all: rewrite Hm.
  all: repeat match goal with
              | |- context [p_inside (p_pc ?c)] => destruct (p_inside (p_pc c))
              | |- context [r_inside (r_pc ?c)] => destruct (r_inside (r_pc c))
              end; try reflexivity; try discriminate.
Qed.

Lemma run_invariant (sched : list Choice) (c : Config) :
  invariant c ->
  invariant (fst (run sched c)) /\ Forall disciplined (snd (run sched c)).
Proof.
  revert c. induction sched as [|ch sched IH]; intros c Hinv; cbn [run].
  - split; [exact Hinv|constructor].
  - destruct (step ch c) as [[c' l]|] eqn:Hstep; [|now apply IH].
    pose proof (step_invariant _ _ _ _ Hinv Hstep) as Hinv'.
    pose proof (step_disciplined _ _ _ _ Hinv Hstep) as Hl.
    destruct (IH c' Hinv') as [H1 H2].
    destruct (run sched c') as [c'' ls]. cbn [fst snd] in *.
    split; [exact H1|constructor; assumption].
Qed.

(** The probe goroutine left alone for one cycle does to [times], [pings]
    and [pingCount] what [ping_cycle] does. *)
Lemma prober_cycle_agrees
      (timeout : Z) (deadTimeout interval : float) (useIPv6 : bool) (id : Z)
      (env : Probe.CycleEnv) (st : Probe.State) (c : Config) :
  Probe.marshal_err env = false ->
  times c = Probe.times st -> pings c = Probe.pings st ->
  pingCount c = Probe.pingCount st ->
  p_pc c = PCycle -> mutex c = None -> exited c = false ->
  let move := MoveProber false (Some (Spec.sample deadTimeout env)) in
  let c' := fst (run [move; move; move; move; move; move] c) in
  let st' := fst (Probe.ping_cycle timeout deadTimeout interval useIPv6 id env st) in
  times c' = Probe.times st' /\ pings c' = Probe.pings st' /\
  pingCount c' = Probe.pingCount st' /\ p_pc c' = PTest /\ mutex c' = None.
Proof.
  intros Hm Ht Hp Hc Hpc Hmu Hex move c' st'.
  destruct (ping_cycle_completes timeout deadTimeout interval useIPv6 id env st Hm)
    as (_ & Ht' & Hp' & _ & Hc' & _).
  fold st' in Ht', Hp', Hc'. rewrite Ht', Hp', Hc'.
  destruct c as [ts ps rn mu ex ppc pcnt rpc lg pd cps spc].
  cbn in Ht, Hp, Hc, Hpc, Hmu, Hex. subst ts ps pcnt ppc mu ex.
  subst c' move. cbn. auto.
Qed.

Lemma StronglySorted_weaken {A : Type} (R R' : A -> A -> Prop) (l : list A) :
  (forall a b, R a b -> R' a b) -> StronglySorted R l -> StronglySorted R' l.
Proof.
  intros HR. induction 1 as [|a l Hl IH Ha]; constructor; [exact IH|].
  eapply Forall_impl; [|exact Ha]. intros b. apply HR.
Qed.

(** C10, as the code has it.  In every execution the appends of the probe
    goroutine to [times] and [pings] and the copy the render loop takes of
    [times] are made with the mutex held, and the running flag is read and
    written without it; whenever the render loop holds the mutex every
    sample has its sequence number; the copies taken one after the other
    never shrink, each is an initial segment of the next. *)
Theorem C10_lock_discipline (sched : list Choice) :
  let c := fst (run sched init) in
  let ls := snd (run sched init) in
  (forall l, In l ls -> disciplined l) /\
  (holds Renderer c = true -> List.length (times c) = List.length (pings c)) /\
  (holds Prober c = true -> holds Renderer c = false) /\
  StronglySorted prefix (copies c) /\
  StronglySorted (fun a b => (List.length a <= List.length b)%nat) (copies c).
Proof.
  intros c ls.
  destruct (run_invariant sched init invariant_init) as [Hinv Hls].
  fold c in Hinv. fold ls in Hls.
  destruct Hinv as (Hm & Hx & Hlen & Hpre & Hsort).
  split; [|split; [|split; [|split]]].
  - apply Forall_forall. exact Hls.
  - unfold holds. rewrite Hm.
    destruct (p_pc c); cbn in *; try discriminate; intros _; lia.
  - unfold holds. rewrite Hm.
    destruct (p_inside (p_pc c)); [reflexivity|].
    destruct (r_inside (r_pc c)); discriminate.
  - exact Hsort.
  - eapply StronglySorted_weaken; [|exact Hsort]. apply prefix_length.
Qed.

Lemma C10_lock_discipline_witness :
  let c := fst (run two_copies_schedule init) in
  copies c = [[]; [12%float]] /\
  StronglySorted prefix (copies c) /\
  (forall l, In l (snd (run two_copies_schedule init)) -> disciplined l).
Proof.
  pose proof (C10_lock_discipline two_copies_schedule) as (Hd & _ & _ & Hs & _).
  cbn zeta. split; [vm_compute; reflexivity|]. split; assumption.
Defined.

(** C10, as the specification states it, fails: in [racy_schedule] the
    render loop reads [times] in [updateStats] after it has released the
    mutex, while the probe goroutine holds it between its two appends; the
    loop tests of [running] are outside the mutex as well. *)
Lemma C10_counterexample :
  ~ all_under_mutex (snd (run racy_schedule init)) /\
  mutex (fst (run racy_schedule init)) = Some Prober /\
  In (mkLabel Renderer RenderUpdateStats (Some (Rd VTimes)) false)
     (snd (run racy_schedule init)) /\
  In (mkLabel Prober ProbeLoopTest (Some (Rd VRunning)) false)
     (snd (run racy_schedule init)).
Proof.
  assert (Hin : In (mkLabel Renderer RenderUpdateStats (Some (Rd VTimes)) false)
                   (snd (run racy_schedule init))).
  { vm_compute. repeat (first [left; reflexivity | right]). }
  split; [|split; [|split]].
  - intros H. specialize (H _ Hin). cbn in H.
    assert (E : false = true) by (apply H; discriminate). discriminate E.
  - vm_compute. reflexivity.
  - exact Hin.
  - vm_compute. repeat (first [left; reflexivity | right]).
Qed.

End Goroutines.

(** * More of [main.go] *)

(** ** The chart *)

Section Chart.

Import Stats Plot.

(** The min/max loop of [updateStats] runs the loops of [minFloat64] and
    [maxFloat64] side by side. *)
Lemma minmax_fold_split (l : list float) (mn mx : float) :
  fold_left minmax_step l (mn, mx)
  = (fold_left (fun min v => if PrimFloat.ltb v min then v else min) l mn,
     fold_left (fun max v => if gtb v max then v else max) l mx).
Proof.
  revert mn mx. induction l as [|t l IH]; intros mn mx; [reflexivity|].
  cbn [fold_left]. unfold minmax_step at 2. apply IH.
Qed.

Lemma maxFloat64_minmax (s0 : float) (slice : list float) :
  maxFloat64 (s0 :: slice) = Some (snd (minmax_loop (s0 :: slice))) /\
  minFloat64 (s0 :: slice) = Some (fst (minmax_loop (s0 :: slice))).
Proof.
  unfold maxFloat64, minFloat64, minmax_loop. cbn [nth].
  now rewrite minmax_fold_split.
Qed.

Lemma maxFloat64_nonempty (slice : list float) :
  slice <> [] -> exists m, maxFloat64 slice = Some m /\ Spec.is_max slice m.
Proof.
  intros Hne. destruct slice as [|s0 slice]; [contradiction|].
  destruct (maxFloat64_minmax s0 slice) as [Emax _].
  destruct (minmax_loop_extrema (s0 :: slice)) as [_ Hmax]; [discriminate|].
  eexists. split; [exact Emax|exact Hmax].
Qed.

(** X1. [maxFloat64] and [minFloat64] panic on the empty slice and on no
    other; otherwise the result is an element of the slice, no element is
    above (below) it. *)
Theorem X1_max_min_of_slice (slice : list float) :
  (maxFloat64 slice = None <-> slice = []) /\
  (minFloat64 slice = None <-> slice = []) /\
  (forall m, maxFloat64 slice = Some m -> Spec.is_max slice m) /\
  (forall m, minFloat64 slice = Some m -> Spec.is_min slice m).
Proof.
  destruct slice as [|s0 slice].
  - repeat split; try reflexivity; discriminate.
  - destruct (maxFloat64_minmax s0 slice) as [Emax Emin].
    destruct (minmax_loop_extrema (s0 :: slice)) as [Hmin Hmax]; [discriminate|].
    rewrite Emax, Emin. split; [|split; [|split]].
    + split; discriminate.
    + split; discriminate.
    + intros m E. injection E as <-. exact Hmax.
    + intros m E. injection E as <-. exact Hmin.
Qed.

Lemma store_middle {A : Type} (done : list A) (z : A) (zs : list A) (v : A) :
  store (done ++ z :: zs) (List.length done) v = Some (done ++ v :: zs).
Proof.
  induction done as [|d done IH]; [reflexivity|].
  cbn [app List.length store]. now rewrite IH.
Qed.

Lemma store_length {A : Type} (s t : list A) (i : nat) (v : A) :
  store s i v = Some t -> List.length t = List.length s.
Proof.
  revert t i. induction s as [|x s IH]; intros t i; [discriminate|].
  destruct i as [|i]; cbn [store].
  - intros E. injection E as <-. reflexivity.
  - destruct (store s i v) as [t'|] eqn:E'; [|discriminate].
    intros E. injection E as <-. cbn [List.length]. f_equal. now apply (IH t' i).
Qed.

Section WithLog10.

Variable Log10 : float -> float.

(** The value the loop stores for [v]. *)
Let shown (v : float) : float := if gtb v 0 then Log10 v else 0%float.

Lemma transform_loop_map (rest done : list float) :
  transform_loop Log10 rest (List.length done)
                 (done ++ repeat 0%float (List.length rest))
  = Some (done ++ map shown rest).
Proof.
  revert done. induction rest as [|v rest IH]; intros done.
  - cbn. reflexivity.
  - cbn [List.length repeat transform_loop map].
    rewrite store_middle.
    replace (done ++ (if gtb v 0 then Log10 v else 0%float)
                  :: repeat 0%float (List.length rest))
      with ((done ++ [shown v]) ++ repeat 0%float (List.length rest))
      by (now rewrite <- app_assoc).
    replace (S (List.length done)) with (List.length (done ++ [shown v]))
      by (rewrite length_app; cbn; lia).
    rewrite IH. now rewrite <- app_assoc.
Qed.

Lemma transform_map (plotData : list float) :
  transform Log10 plotData = Some (map shown plotData).
Proof. apply (transform_loop_map plotData []). Qed.

End WithLog10.

(** X2. The logarithmic transform never writes outside the slice it
    allocated; its result has an entry for every sample, 0 where the
    sample is not above 0 (a NaN included) and [Log10] of the sample
    elsewhere; [Log10] is applied to positive samples only, so what it
    answers elsewhere does not matter. *)
Theorem X2_log_transform (Log10 : float -> float) (plotData : list float) :
  transform Log10 plotData
  = Some (map (fun v => if PrimFloat.ltb 0 v then Log10 v else 0%float) plotData) /\
  (forall t, transform Log10 plotData = Some t ->
             List.length t = List.length plotData) /\
  (forall Log10',
      (forall v, PrimFloat.ltb 0 v = true -> Log10' v = Log10 v) ->
      transform Log10' plotData = transform Log10 plotData).
Proof.
  split; [apply transform_map|split].
  - intros t. rewrite transform_map. intros E. injection E as <-. apply length_map.
  - intros Log10' H. rewrite !transform_map. f_equal. apply map_ext_in.
    intros v _. unfold gtb. destruct (PrimFloat.ltb 0 v) eqn:E; [now apply H|reflexivity].
Qed.

(** X3. On a plot with one data row the ticker branch never panics; with
    an empty copy it leaves the plot as it is; otherwise the row becomes
    the copy (its transform, on the log scale) and [MaxVal] is a maximum
    of the row shown. *)
Theorem X3_update_plot
        (Log10 : float -> float) (currentScale : string) (plotData : list float)
        (plot : PlotWidget) :
  List.length (Data plot) = 1%nat ->
  exists plot',
    update_plot Log10 currentScale plotData plot = Some plot' /\
    List.length (Data plot') = 1%nat /\
    (plotData = [] -> plot' = plot) /\
    (plotData <> [] ->
     let row := if String.eqb currentScale "log"
                then map (fun v => if PrimFloat.ltb 0 v then Log10 v else 0%float) plotData
                else plotData in
     Data plot' = [row] /\ Spec.is_max row (MaxVal plot')).
Proof.
  intros Hlen. destruct plot as [data mv]. cbn [Data] in Hlen.
  destruct data as [|row0 [|row1 data]]; try discriminate Hlen.
  unfold update_plot. cbn [Data MaxVal].
  destruct plotData as [|v0 plotData].
  - cbn. exists (mkPlot [row0] mv).
    split; [reflexivity|]. split; [reflexivity|]. split; [reflexivity|].
    intros H. now contradiction H.
  - assert (Hpos : (len (v0 :: plotData) >? 0) = true).
    { apply Z.gtb_lt. unfold len. cbn [List.length]. lia. }
    rewrite Hpos.
    destruct (String.eqb currentScale "log").
    + rewrite transform_map. cbn [store].
      set (row := map (fun v => if gtb v 0 then Log10 v else 0%float) (v0 :: plotData)).
      destruct (maxFloat64_nonempty row) as [m [Em Hm]].
      { subst row. discriminate. }
      rewrite Em. exists (mkPlot [row] m).
      split; [reflexivity|]. split; [reflexivity|]. split; [discriminate|].
      intros _. split; [reflexivity|exact Hm].
    + cbn [store].
      destruct (maxFloat64_nonempty (v0 :: plotData)) as [m [Em Hm]]; [discriminate|].
      rewrite Em. exists (mkPlot [v0 :: plotData] m).
      split; [reflexivity|]. split; [reflexivity|]. split; [discriminate|].
      intros _. split; [reflexivity|exact Hm].
Qed.

End Chart.

(** ** The report as a whole *)

Section ReportConsistency.

Import Stats Plot.

Lemma ltb_true_not_nan (a b : float) :
  PrimFloat.ltb a b = true -> PrimFloat.eqb a a = true /\ PrimFloat.eqb b b = true.
Proof.
  rewrite FloatAxioms.ltb_spec, !FloatAxioms.eqb_spec. unfold SFltb, SFeqb. intros H.
  assert (Ha : Prim2SF a <> S754_nan) by (intros E; now rewrite E in H).
  assert (Hb : Prim2SF b <> S754_nan).
  { intros E. rewrite E in H. now destruct (Prim2SF a). }
  now rewrite (SFcompare_refl _ Ha), (SFcompare_refl _ Hb).
Qed.

(** Nothing compares equal to, below or above a NaN. *)
Lemma nan_compares_false (d t : float) :
  PrimFloat.eqb d d = false ->
  PrimFloat.eqb t d = false /\ PrimFloat.ltb t d = false /\ PrimFloat.ltb d t = false.
Proof.
  intros Hd. repeat split.
  - destruct (PrimFloat.eqb t d) eqn:E; [|reflexivity].
    apply eqb_true_refl_r in E. congruence.
  - destruct (PrimFloat.ltb t d) eqn:E; [|reflexivity].
    apply ltb_true_not_nan in E as [_ E]. congruence.
  - destruct (PrimFloat.ltb d t) eqn:E; [|reflexivity].
    apply ltb_true_not_nan in E as [E _]. congruence.
Qed.

Lemma count_mono (p q : float -> bool) (l : list float) :
  (forall t, p t = true -> q t = true) -> (Spec.count p l <= Spec.count q l)%nat.
Proof.
  intros H. unfold Spec.count. induction l as [|t l IH]; [reflexivity|].
  cbn [filter]. destruct (p t) eqn:Ep.
  - rewrite (H t Ep). cbn [List.length]. lia.
  - destruct (q t); cbn [List.length]; lia.
Qed.

Lemma count_app (p : float -> bool) (a b : list float) :
  Spec.count p (a ++ b) = (Spec.count p a + Spec.count p b)%nat.
Proof. unfold Spec.count. now rewrite filter_app, length_app. Qed.

Lemma count_all (p : float -> bool) (b : list float) :
  forallb p b = true -> Spec.count p b = List.length b.
Proof. intros H. unfold Spec.count. now rewrite forallb_filter_id. Qed.

(** A run of [p]-samples is no longer than the number of [p]-samples. *)
Lemma run_le_count (p : float -> bool) (l b : list float) :
  Spec.is_run p l b -> (List.length b <= Spec.count p l)%nat.
Proof.
  intros [(a & c & ->) Hb]. rewrite !count_app, (count_all p b Hb). lia.
Qed.

Lemma count_pos_run (p : float -> bool) (l : list float) :
  (0 < Spec.count p l)%nat -> exists t, Spec.is_run p l [t].
Proof.
  unfold Spec.count. intros H.
  destruct (filter p l) as [|t f] eqn:E; [cbn in H; lia|].
  assert (Hin : In t (filter p l)) by (rewrite E; now left).
  apply filter_In in Hin as [Hin Hp].
  apply in_split in Hin as (a & c & ->).
  exists t. split; [exists a, c; reflexivity|]. cbn. now rewrite Hp.
Qed.

Lemma valid_subset (deadTimeout : float) (times : list float) (t : float) :
  In t (filter (Spec.valid deadTimeout) times) -> In t times.
Proof. intros H. now apply filter_In in H. Qed.

(** X4. When at least one sample is valid, the panel's Min is not above
    its Max, the chart's [MaxVal] on the linear scale (the maximum of all
    samples, sentinels included) is not below the panel's Max, and when no
    sample is lost the two agree, as do the minima. *)
Theorem X4_panel_and_chart
        (timeout : Z) (deadTimeout : float) (times : list float) (elapsed : float) :
  filter (Spec.valid deadTimeout) times <> [] ->
  let r := updateStats timeout deadTimeout times elapsed in
  PrimFloat.ltb (maxTime r) (minTime r) = false /\
  (exists m, maxFloat64 times = Some m /\ PrimFloat.ltb m (maxTime r) = false) /\
  (forallb (Spec.valid deadTimeout) times = true ->
   maxFloat64 times = Some (maxTime r) /\ minFloat64 times = Some (minTime r)).
Proof.
  intros Hne r.
  destruct (report_nonempty_valid timeout deadTimeout times elapsed)
    as (_ & Hmin & Hmax & _).
  { now rewrite validTimes_of_filter. }
  fold r in Hmin, Hmax. rewrite validTimes_of_filter in Hmin, Hmax.
  destruct (minmax_loop_extrema _ Hne) as [[Hmin_in Hmin_low] [Hmax_in Hmax_high]].
  rewrite <- Hmin in Hmin_in, Hmin_low. rewrite <- Hmax in Hmax_in, Hmax_high.
  split; [|split].
  - now apply Hmax_high.
  - destruct (maxFloat64_nonempty times) as [m [Em [_ Hm]]].
    { intros E. rewrite E in Hne. now apply Hne. }
    exists m. split; [exact Em|]. apply Hm. now apply (valid_subset deadTimeout).
  - intros Hall. rewrite (forallb_filter_id _ _ Hall) in Hmin, Hmax.
    destruct times as [|t0 times]; [now contradiction Hne|].
    destruct (maxFloat64_minmax t0 times) as [-> ->]. now rewrite Hmin, Hmax.
Qed.

Lemma X4_panel_and_chart_witness :
  let r := updateStats 150 500 [30; 500; 10; 20]%float 0 in
  PrimFloat.ltb (maxTime r) (minTime r) = false /\
  (exists m, maxFloat64 [30; 500; 10; 20]%float = Some m /\
             PrimFloat.ltb m (maxTime r) = false).
Proof.
  destruct (X4_panel_and_chart 150 500 [30; 500; 10; 20]%float 0) as (H1 & H2 & _).
  - vm_compute. discriminate.
  - split; assumption.
Defined.

Lemma report_totalN_timesLost
      (timeout : Z) (deadTimeout : float) (times : list float) (elapsed : float) :
  len times <= int_max ->
  totalN (updateStats timeout deadTimeout times elapsed) = len times /\
  timesLost (updateStats timeout deadTimeout times elapsed)
  = Z.of_nat (Spec.count (Spec.lost deadTimeout) times).
Proof.
  intros Hle. split; [|now apply timesLost_count].
  unfold updateStats.
  repeat match goal with
         | |- context [minmax_loop ?l] => destruct (minmax_loop l)
         | |- context [count_loop ?a ?b ?c] => destruct (count_loop a b c)
         | |- context [len ?l >? ?k] => destruct (len l >? k)
         end; reflexivity.
Qed.

(** X7. Total N is the number of samples; N lost and the number of valid
    samples add up to it; N timeout is the number of samples that are lost
    or at least Timeout, so N lost is at most N timeout, which is at most
    Total N. *)
Theorem X7_counts
        (timeout : Z) (deadTimeout : float) (times : list float) (elapsed : float) :
  len times <= int_max ->
  let r := updateStats timeout deadTimeout times elapsed in
  totalN r = len times /\
  timesLost r + len (validTimes_of deadTimeout times) = totalN r /\
  totalTimeout r
  = Z.of_nat (Spec.count (Spec.lost_or_timed_out timeout deadTimeout) times) /\
  0 <= timesLost r <= totalTimeout r /\
  totalTimeout r <= totalN r.
Proof.
  intros Hle r.
  assert (HN : totalN r = len times).
  { subst r. unfold updateStats.
    repeat match goal with
           | |- context [minmax_loop ?l] => destruct (minmax_loop l)
           | |- context [count_loop ?a ?b ?c] => destruct (count_loop a b c)
           | |- context [len ?l >? ?k] => destruct (len l >? k)
           end; reflexivity. }
  assert (HL : timesLost r = Z.of_nat (Spec.count (Spec.lost deadTimeout) times)).
  { subst r. now apply timesLost_count. }
  assert (HT : totalTimeout r
               = Z.of_nat (Spec.count (Spec.lost_or_timed_out timeout deadTimeout) times)).
  { subst r. rewrite report_totalTimeout.
    destruct (seq_loop_invariant timeout deadTimeout times Hle) as (m & c & -> & _).
    reflexivity. }
  pose proof (count_mono (Spec.lost deadTimeout)
                         (Spec.lost_or_timed_out timeout deadTimeout) times) as Hmono.
  pose proof (count_le_length (Spec.lost_or_timed_out timeout deadTimeout) times) as Hlen.
  pose proof (filter_length (Spec.lost deadTimeout) times) as Hpart.
  rewrite HN, HL, HT, validTimes_of_filter. unfold len, Spec.count in *.
  assert (Hv : filter (Spec.valid deadTimeout) times
               = filter (fun x => negb (Spec.lost deadTimeout x)) times) by reflexivity.
  rewrite Hv. repeat split; try lia.
  apply inj_le. apply Hmono. intros t Ht. unfold Spec.lost_or_timed_out.
  now rewrite Ht.
Qed.

Lemma X7_counts_witness :
  let r := updateStats 150 500 [10; 500; 200; 500; 150]%float 0 in
  totalN r = 5 /\ timesLost r = 2 /\ totalTimeout r = 4.
Proof.
  destruct (X7_counts 150 500 [10; 500; 200; 500; 150]%float 0)
    as (H1 & _ & H3 & _).
  - vm_compute. discriminate.
  - cbn zeta. rewrite H1, H3. vm_compute. auto.
Defined.

(** X8. The longest run is between 0 and N timeout, and it is 0 exactly
    when N timeout is 0. *)
Theorem X8_longest_run_bounds
        (timeout : Z) (deadTimeout : float) (times : list float) (elapsed : float) :
  len times <= int_max ->
  let r := updateStats timeout deadTimeout times elapsed in
  0 <= maxSequentialTimeout r <= totalTimeout r /\
  (maxSequentialTimeout r = 0 <-> totalTimeout r = 0).
Proof.
  intros Hle r. subst r.
  rewrite report_maxSequentialTimeout, report_totalTimeout.
  destruct (seq_loop_invariant timeout deadTimeout times Hle)
    as (m & c & -> & _ & [(b & Hrun & Hlen) Hmax]).
  unfold seq_final. cbn [maxSeq curSeq totTimeout]. rewrite Z_max_if.
  set (p := Spec.lost_or_timed_out timeout deadTimeout) in *.
  pose proof (run_le_count p times b Hrun) as Hb.
  split; [lia|]. split; intros H0.
  - destruct (Nat.eq_dec (Spec.count p times) 0) as [E|E]; [now rewrite E|].
    destruct (count_pos_run p times) as [t Ht]; [lia|].
    specialize (Hmax _ Ht). cbn [List.length] in Hmax. lia.
  - lia.
Qed.

Lemma X8_longest_run_bounds_witness :
  let r := updateStats 150 500 [10; 500; 200; 500; 150]%float 0 in
  0 <= maxSequentialTimeout r <= totalTimeout r.
Proof.
  destruct (X8_longest_run_bounds 150 500 [10; 500; 200; 500; 150]%float 0)
    as [H _].
  - vm_compute. discriminate.
  - exact H.
Defined.

(** X9. A NaN given as DeadTimeout passes the check of [main] for every
    Timeout, and then [updateStats] finds no sample lost: every sample,
    the sentinels recorded for lost probes included, counts as valid and
    N lost stays 0. *)
Theorem X9_nan_sentinel
        (timeout : Z) (deadTimeout : float) (times : list float) (elapsed : float) :
  PrimFloat.eqb deadTimeout deadTimeout = false ->
  Startup.deadTimeout_out_of_range timeout deadTimeout = false /\
  validTimes_of deadTimeout times = times /\
  timesLost (updateStats timeout deadTimeout times elapsed) = 0.
Proof.
  intros Hnan.
  assert (Hne : forall t, PrimFloat.eqb t deadTimeout = false)
    by (intros t; apply (nan_compares_false deadTimeout t Hnan)).
  split; [|split].
  - unfold Startup.deadTimeout_out_of_range, gtb.
    destruct (nan_compares_false deadTimeout 10000%float Hnan) as (_ & -> & _).
    destruct (nan_compares_false deadTimeout (float64_of_int timeout) Hnan)
      as (_ & _ & ->).
    reflexivity.
  - rewrite validTimes_of_filter. apply forallb_filter_id. apply forallb_forall.
    intros t _. unfold Spec.valid, Spec.lost. now rewrite Hne.
  - rewrite report_timesLost. unfold count_loop. rewrite count_step_pair. cbn [snd].
    induction times as [|t times IH]; [reflexivity|].
    cbn [fold_left]. now rewrite Hne.
Qed.

Lemma X9_nan_sentinel_witness :
  Startup.deadTimeout_out_of_range 150 PrimFloat.nan = false /\
  validTimes_of PrimFloat.nan [12; PrimFloat.nan; 7]%float
  = [12; PrimFloat.nan; 7]%float /\
  timesLost (updateStats 150 PrimFloat.nan [12; PrimFloat.nan; 7]%float 0) = 0.
Proof.
  apply (X9_nan_sentinel 150 PrimFloat.nan [12; PrimFloat.nan; 7]%float 0).
  vm_compute. reflexivity.
Defined.

End ReportConsistency.

(** ** What the probe loop lets an observer see *)

Section ProbeObserved.

Import Probe Observe.

Variable timeout : Z.
Variable deadTimeout : float.
Variable interval : float.
Variable useIPv6 : bool.
Variable id : Z.

Local Abbreviation cycle := (Probe.ping_cycle timeout deadTimeout interval useIPv6 id).
Local Abbreviation loop := (Probe.ping_loop timeout deadTimeout interval useIPv6 id).

(** Induction over the loop: [J k] is to hold with [k] iterations to go. *)
Lemma ping_loop_inv (J : nat -> State -> Prop) :
  (forall k st, J (S k) st -> J k st) ->
  (forall k st, J k st -> J k (set_running false st)) ->
  (forall k env st, running st = true -> J (S k) st -> J k (fst (cycle env st))) ->
  forall envs st, J (List.length envs) st -> J 0%nat (loop envs st).
Proof.
  intros Hweak Hclear Hstep.
  assert (Hzero : forall k st, J k st -> J 0%nat st).
  { induction k as [|k IH]; intros st H; [exact H|]. apply IH, Hweak, H. }
  induction envs as [|env envs IH]; intros st HJ; [exact HJ|].
  cbn [Probe.ping_loop List.length] in *.
  set (st0 := if running_cleared env then set_running false st else st).
  assert (HJ0 : J (S (List.length envs)) st0).
  { unfold st0. destruct (running_cleared env); [now apply Hclear|exact HJ]. }
  clearbody st0. destruct (running st0) eqn:Hr; [|now apply (Hzero _ _ HJ0)].
  pose proof (Hstep _ env _ Hr HJ0) as H1.
  destruct (cycle env st0) as [st1 [|]]; cbn [fst] in H1.
  - now apply IH.
  - now apply (Hzero _ _ H1).
Qed.


Lemma mutex_calls_app (a b : list Event) :
  mutex_calls (a ++ b) = mutex_calls a ++ mutex_calls b.
Proof.
  induction a as [|e a IH]; [reflexivity|].
  destruct e; cbn [app mutex_calls]; now rewrite IH.
Qed.

Lemma sleeps_app (a b : list Event) : sleeps (a ++ b) = (sleeps a + sleeps b)%nat.
Proof.
  induction a as [|e a IH]; [reflexivity|].
  destruct e; cbn [app sleeps]; now rewrite IH.
Qed.

Lemma released_nil : released_at_once [].
Proof.
  split; intros a b E; symmetry in E; apply app_eq_nil in E as [_ E]; discriminate.
Qed.

Lemma released_app (x y : list Event) :
  released_at_once x -> released_at_once y -> released_at_once (x ++ y).
Proof.
  intros [Hx1 Hx2] [Hy1 Hy2]. split; intros a b E.
  - apply app_eq_app in E as [l [[Ex E]|[Ea E]]].
    + destruct l as [|e l]; cbn [app] in E.
      * apply (Hy1 [] b). now rewrite <- E.
      * injection E as <- ->.
        destruct (Hx1 a l Ex) as [l' ->]. now exists (l' ++ y).
    + apply (Hy1 l b E).
  - apply app_eq_app in E as [l [[Ex E]|[Ea E]]].
    + destruct l as [|e l]; cbn [app] in E.
      * destruct (Hy2 [] b) as [a' Ha']; [now rewrite <- E|].
        symmetry in Ha'. apply app_eq_nil in Ha' as [_ Ha']. discriminate.
      * injection E as <- ->. apply (Hx2 a l Ex).
    + destruct (Hy2 l b E) as [a' ->]. exists (x ++ a').
      now rewrite Ea, app_assoc.
Qed.

Lemma released_cons (e : Event) (tr : list Event) :
  e <> EvLock -> e <> EvUnlock -> released_at_once tr -> released_at_once (e :: tr).
Proof.
  intros H1 H2 Htr. apply (released_app [e] tr); [|exact Htr].
  split; intros a b E.
  - destruct a as [|x [|y a]]; cbn in E; try discriminate E; congruence.
  - destruct a as [|x [|y a]]; cbn in E; try discriminate E; congruence.
Qed.

Lemma released_lock_unlock (tr : list Event) :
  released_at_once tr -> released_at_once (EvLock :: EvUnlock :: tr).
Proof.
  intros Htr. apply (released_app [EvLock; EvUnlock] tr); [|exact Htr].
  split; intros a b E.
  - destruct a as [|x [|y [|z a]]]; cbn in E; try discriminate E.
    injection E as <-. now exists [].
  - destruct a as [|x [|y [|z a]]]; cbn in E; try discriminate E.
    injection E as -> _. now exists [].
Qed.

Ltac released :=
  repeat first [ apply released_nil
               | apply released_lock_unlock
               | apply released_cons; [discriminate|discriminate|] ].

(** What one iteration adds to the trace. *)
Lemma cycle_trace (env : CycleEnv) (st : State) :
  exists evs,
    trace (fst (cycle env st)) = trace st ++ evs /\
    sent evs = (if marshal_err env then []
                else [build useIPv6 id (incr (pingCount st))]) /\
    mutex_calls evs = (if marshal_err env then [] else [true; false]) /\
    sleeps evs = (if marshal_err env then 0 else 1)%nat /\
    released_at_once evs.
Proof.
  unfold Probe.ping_cycle.
  destruct (marshal_err env).
  - cbn. eexists. split; [reflexivity|]. repeat split; released.
  - destruct (write_err env);
      [|destruct (negb (write_n env =? msgBytes_len env));
        destruct (read_err env) as [[|]|];
        try destruct (parse_err env);
        try destruct (ICMPType_eqb _ _ || ICMPType_eqb _ _);
        try destruct (gtb _ _)];
      cbn; rewrite <- ?app_assoc; cbn [app];
      (eexists; split; [reflexivity|]; repeat split; released).
Qed.

End ProbeObserved.

Section ProbeObservedLoop.

Import Probe Observe.




End ProbeObservedLoop.

Section ProbeObservedMore.

Import Probe Observe Stats.

(** X12. In the trace of [ping], every [mutex.Lock()] is followed at once
    by its [mutex.Unlock()] and no [Unlock] comes without a [Lock] right
    before it, so no send, wait, print or sleep happens with the mutex
    held; there is one such pair for every recorded sample. *)
Theorem X12_mutex_released_at_once
        (timeout : Z) (deadTimeout interval : float) (useIPv6 : bool) (id : Z)
        (listen_err : bool) (envs : list CycleEnv) :
  let st := ping timeout deadTimeout interval useIPv6 id listen_err envs init in
  released_at_once (trace st) /\
  mutex_calls (trace st) = List.concat (repeat [true; false] (List.length (times st))).
Proof.
  cbn zeta. unfold ping. destruct listen_err.
  - cbn. split; [|reflexivity].
    apply released_cons; [discriminate|discriminate|apply released_nil].
  - set (J := fun (k : nat) (st : State) =>
           released_at_once (trace st) /\
           mutex_calls (trace st) = List.concat (repeat [true; false] (List.length (times st)))).
    apply (ping_loop_inv timeout deadTimeout interval useIPv6 id J).
    + intros k st H. exact H.
    + intros k st H. exact H.
    + intros k env st _ [H1 H2].
      destruct (cycle_trace timeout deadTimeout interval useIPv6 id env st)
        as (evs & Et & _ & Em & _ & Hrel).
      unfold J. rewrite Et, mutex_calls_app, Em, H2.
      split; [now apply released_app|].
      destruct (marshal_err env) eqn:Hm.
      * rewrite (ping_cycle_marshal_error _ _ _ _ _ _ _ Hm). cbn [fst times].
        apply app_nil_r.
      * destruct (ping_cycle_completes timeout deadTimeout interval useIPv6 id env st Hm)
          as (_ & Ht & _).
        cbn zeta in Ht. rewrite Ht, length_app. cbn [List.length].
        rewrite repeat_app, concat_app. reflexivity.
    + split; [apply released_nil|reflexivity].
Qed.

(** X13. The loop reads nothing of the environment past the first answer
    that stops it (the flag cleared from outside, or a marshal failure): no
    further probe is built, and it ends with the running flag false. *)
Theorem X13_stops_for_good
        (timeout : Z) (deadTimeout interval : float) (useIPv6 : bool) (id : Z)
        (before : list CycleEnv) (env : CycleEnv) (after : list CycleEnv) (st : State) :
  stops env = true ->
  let loop := ping_loop timeout deadTimeout interval useIPv6 id in
  loop (before ++ env :: after) st = loop (before ++ [env]) st /\
  running (loop (before ++ [env]) st) = false.
Proof.
  intros Hstop loop. subst loop. revert st.
  induction before as [|e before IH]; intros st.
  - cbn [app ping_loop]. unfold stops in Hstop.
    destruct (running_cleared env) eqn:Hrc.
    + cbn. auto.
    + cbn [orb] in Hstop. destruct (running st) eqn:Hr; [|auto].
      rewrite (ping_cycle_marshal_error _ _ _ _ _ _ _ Hstop). auto.
  - cbn [app ping_loop].
    set (st0 := if running_cleared e then set_running false st else st).
    clearbody st0. destruct (running st0) eqn:Hr; [|auto].
    destruct (ping_cycle timeout deadTimeout interval useIPv6 id e st0)
      as [st1 [|]] eqn:Ec.
    + apply IH.
    + split; [reflexivity|].
      destruct (marshal_err e) eqn:Hm.
      * rewrite (ping_cycle_marshal_error _ _ _ _ _ _ _ Hm) in Ec.
        injection Ec as <-. reflexivity.
      * destruct (ping_cycle_completes timeout deadTimeout interval useIPv6 id e st0 Hm)
          as (Hfl & _). rewrite Ec in Hfl. discriminate Hfl.
Qed.

Lemma X13_stops_for_good_witness :
  let loop := ping_loop 150 500 0.5 false 4242 in
  loop [Examples.env_echo; Examples.env_marshal_failure; Examples.env_echo] init
  = loop [Examples.env_echo; Examples.env_marshal_failure] init /\
  times (loop [Examples.env_echo; Examples.env_marshal_failure] init) = [12%float].
Proof.
  destruct (X13_stops_for_good 150 500 0.5 false 4242 [Examples.env_echo]
              Examples.env_marshal_failure [Examples.env_echo] init eq_refl)
    as [H _].
  split; [exact H|vm_compute; reflexivity].
Defined.

Lemma extends_refl {A : Type} (a : list A) : extends a a.
Proof. exists []. now rewrite app_nil_r. Qed.

Lemma extends_trans {A : Type} (a b c : list A) :
  extends a b -> extends b c -> extends a c.
Proof. intros [r ->] [r' ->]. exists (r ++ r'). now rewrite app_assoc. Qed.

(** X14. Whatever the environment answers, [ping] only ever appends:
    the samples, the sequence numbers and the trace it started from stay
    an initial segment of what it leaves; started from [main]'s initial
    values it has slept exactly once per recorded sample. *)
Theorem X14_append_only
        (timeout : Z) (deadTimeout interval : float) (useIPv6 : bool) (id : Z)
        (envs : list CycleEnv) (st : State) :
  let loop := ping_loop timeout deadTimeout interval useIPv6 id in
  extends (times st) (times (loop envs st)) /\
  extends (pings st) (pings (loop envs st)) /\
  extends (trace st) (trace (loop envs st)) /\
  sleeps (trace (loop envs init)) = List.length (times (loop envs init)).
Proof.
  cbn zeta.
  assert (Hstep : forall env s,
             extends (times s) (times (fst (ping_cycle timeout deadTimeout interval
                                                       useIPv6 id env s))) /\
             extends (pings s) (pings (fst (ping_cycle timeout deadTimeout interval
                                                       useIPv6 id env s))) /\
             extends (trace s) (trace (fst (ping_cycle timeout deadTimeout interval
                                                       useIPv6 id env s)))).
  { intros env s.
    destruct (cycle_trace timeout deadTimeout interval useIPv6 id env s)
      as (evs & Et & _).
    destruct (marshal_err env) eqn:Hm.
    - rewrite (ping_cycle_marshal_error _ _ _ _ _ _ _ Hm). cbn [fst times pings trace].
      repeat split; try apply extends_refl. now eexists.
    - destruct (ping_cycle_completes timeout deadTimeout interval useIPv6 id env s Hm)
        as (_ & Ht & Hp & _).
      cbn zeta in Ht, Hp. rewrite Ht, Hp, Et. repeat split; now eexists. }
  split; [|split; [|split]].
  - apply (ping_loop_inv timeout deadTimeout interval useIPv6 id
             (fun _ s => extends (times st) (times s))); auto.
    + intros k env s _ H. eapply extends_trans; [exact H|apply Hstep].
    + apply extends_refl.
  - apply (ping_loop_inv timeout deadTimeout interval useIPv6 id
             (fun _ s => extends (pings st) (pings s))); auto.
    + intros k env s _ H. eapply extends_trans; [exact H|apply Hstep].
    + apply extends_refl.
  - apply (ping_loop_inv timeout deadTimeout interval useIPv6 id
             (fun _ s => extends (trace st) (trace s))); auto.
    + intros k env s _ H. eapply extends_trans; [exact H|apply Hstep].
    + apply extends_refl.
  - apply (ping_loop_inv timeout deadTimeout interval useIPv6 id
             (fun _ s => sleeps (trace s) = List.length (times s))); auto.
    intros k env s _ H.
    destruct (cycle_trace timeout deadTimeout interval useIPv6 id env s)
      as (evs & Et & _ & _ & Es & _).
    rewrite Et, sleeps_app, Es, H.
    destruct (marshal_err env) eqn:Hm.
    + rewrite (ping_cycle_marshal_error _ _ _ _ _ _ _ Hm). cbn [fst times]. lia.
    + destruct (ping_cycle_completes timeout deadTimeout interval useIPv6 id env s Hm)
        as (_ & Ht & _).
      cbn zeta in Ht. rewrite Ht, length_app. reflexivity.
Qed.

(** X15. A cycle and the next report: with a DeadTimeout that is a number,
    a cycle that ends without an echo reply (send failure, timeout,
    receive error, parse failure, other message) raises N lost by one and
    leaves the valid samples as they were; a cycle with an echo reply whose
    latency differs from DeadTimeout leaves N lost and adds the latency to
    the valid samples; either way Total N grows by one. *)
Theorem X15_cycle_then_report
        (timeout : Z) (deadTimeout interval : float) (useIPv6 : bool) (id : Z)
        (env : CycleEnv) (st : State) (elapsed : float) :
  len (times st) < int_max ->
  marshal_err env = false ->
  PrimFloat.eqb deadTimeout deadTimeout = true ->
  let st' := fst (ping_cycle timeout deadTimeout interval useIPv6 id env st) in
  let r := updateStats timeout deadTimeout (times st) elapsed in
  let r' := updateStats timeout deadTimeout (times st') elapsed in
  let echo := negb (write_err env)
              && match read_err env with None => true | Some _ => false end
              && negb (parse_err env)
              && Spec.is_echo_reply (receivedMsg_Type env) in
  totalN r' = totalN r + 1 /\
  (echo = false ->
   timesLost r' = timesLost r + 1 /\
   validTimes_of deadTimeout (times st') = validTimes_of deadTimeout (times st)) /\
  (echo = true -> PrimFloat.eqb (Spec.latency env) deadTimeout = false ->
   timesLost r' = timesLost r /\
   validTimes_of deadTimeout (times st')
   = validTimes_of deadTimeout (times st) ++ [Spec.latency env]).
Proof.
  intros Hle Hm HD st' r r' echo.
  destruct (ping_cycle_completes timeout deadTimeout interval useIPv6 id env st Hm)
    as (_ & Ht & _).
  fold st' in Ht.
  assert (Hle' : len (times st') <= int_max).
  { rewrite Ht, len_app. unfold len at 2. cbn [List.length]. lia. }
  destruct (report_totalN_timesLost timeout deadTimeout (times st) elapsed) as [HN HL]; [lia|].
  destruct (report_totalN_timesLost timeout deadTimeout (times st') elapsed) as [HN' HL']; [lia|].
  fold r in HN, HL. fold r' in HN', HL'.
  assert (Hsample : echo = false -> Spec.sample deadTimeout env = deadTimeout).
  { subst echo. unfold Spec.sample.
    destruct (write_err env); [reflexivity|].
    destruct (read_err env); [reflexivity|].
    destruct (parse_err env); [reflexivity|].
    destruct (Spec.is_echo_reply (receivedMsg_Type env)); [discriminate|reflexivity]. }
  assert (Hecho : echo = true -> Spec.sample deadTimeout env = Spec.latency env).
  { subst echo. unfold Spec.sample.
    destruct (write_err env); [discriminate|].
    destruct (read_err env); [discriminate|].
    destruct (parse_err env); [discriminate|].
    destruct (Spec.is_echo_reply (receivedMsg_Type env)); [reflexivity|discriminate]. }
  split; [|split].
  - rewrite HN, HN', Ht, len_app. reflexivity.
  - intros E. rewrite HL, HL', Ht, (Hsample E), validTimes_of_snoc, HD.
    rewrite count_lost_snoc by exact HD. split; [lia|reflexivity].
  - intros E Hneq. rewrite HL, HL', Ht, (Hecho E), validTimes_of_snoc, Hneq.
    rewrite count_snoc. unfold Spec.lost at 2. rewrite Hneq. split; [lia|reflexivity].
Qed.

Lemma X15_cycle_then_report_witness :
  let st := mkState [20; 30]%float [1; 2] true 2 [] in
  let lost := fst (ping_cycle 150 500 0.5 false 4242 Examples.env_timeout st) in
  let ok := fst (ping_cycle 150 500 0.5 false 4242 Examples.env_echo st) in
  timesLost (updateStats 150 500 (times lost) 0) = 1 /\
  timesLost (updateStats 150 500 (times ok) 0) = 0 /\
  validTimes_of 500 (times ok) = [20; 30; 12]%float.
Proof.
  assert (Hb : len [20; 30]%float < int_max) by (vm_compute; reflexivity).
  pose proof (X15_cycle_then_report 150 500 0.5 false 4242 Examples.env_timeout
                (mkState [20; 30]%float [1; 2] true 2 []) 0 Hb eq_refl eq_refl)
    as (_ & H1 & _).
  pose proof (X15_cycle_then_report 150 500 0.5 false 4242 Examples.env_echo
                (mkState [20; 30]%float [1; 2] true 2 []) 0 Hb eq_refl eq_refl)
    as (_ & _ & H2).
  destruct (H1 eq_refl) as [H1a _].
  destruct (H2 eq_refl eq_refl) as [H2a H2b].
  cbn zeta. rewrite H1a, H2a, H2b. vm_compute. auto.
Defined.

End ProbeObservedMore.

(** ** Resolution of the host *)

Section Resolution.

Import Resolve.

Variable IP : Type.
Variable To4 : IP -> option IP.
Variable To16 : IP -> option IP.
Variable IPString : IP -> string.
Variable LookupIP : string -> option (list IP).

Local Abbreviation chosen := (selected IP To4 To16).
Local Abbreviation resolve := (resolveHostname IP To4 To16 IPString LookupIP).

(** The loop with its [break]s stops at the first address that passes the
    test of the family. *)
Lemma range_ips_find (useIPv6 : bool) (ips : list IP) (ipAddr : string) :
  range_ips IP To4 To16 IPString useIPv6 ips ipAddr
  = match find (chosen useIPv6) ips with
    | Some ip => IPString ip
    | None => ipAddr
    end.
Proof.
  induction ips as [|ip ips IH]; [reflexivity|].
  cbn [range_ips find]. unfold selected at 1.
  destruct (useIPv6 && notnil IP (To16 ip) && negb (notnil IP (To4 ip))); [reflexivity|].
  destruct (negb useIPv6 && notnil IP (To4 ip)); [reflexivity|exact IH].
Qed.

Lemma chosen_family (useIPv6 : bool) (ip : IP) :
  chosen useIPv6 ip = true ->
  if useIPv6 then To16 ip <> None /\ To4 ip = None else To4 ip <> None.
Proof.
  unfold selected, notnil.
  destruct useIPv6, (To16 ip), (To4 ip); cbn; intros H;
    try discriminate H; try split; try reflexivity; discriminate.
Qed.

Lemma resolve_success (host : string) (useIPv6 : bool) (s : string) :
  resolve host useIPv6 = (s, None) <->
  exists ips ip,
    LookupIP host = Some ips /\ find (chosen useIPv6) ips = Some ip /\
    s = IPString ip /\ s <> EmptyString.
Proof.
  unfold resolveHostname. destruct (LookupIP host) as [ips|] eqn:Hl.
  - rewrite range_ips_find. destruct (find (chosen useIPv6) ips) as [ip|] eqn:Hf.
    + destruct (String.eqb_spec (IPString ip) EmptyString) as [E|E].
      * split; [discriminate|]. intros (ips' & ip' & H1 & H2 & H3 & H4).
        injection H1 as <-. rewrite Hf in H2. injection H2 as <-. congruence.
      * split.
        -- intros H. injection H as <-. exists ips, ip. auto.
        -- intros (ips' & ip' & H1 & H2 & H3 & H4).
           injection H1 as <-. rewrite Hf in H2. injection H2 as <-. now rewrite H3.
    + cbn. split; [discriminate|]. intros (ips' & ip' & H1 & H2 & _).
      injection H1 as <-. rewrite Hf in H2. discriminate H2.
  - split; [discriminate|]. intros (ips' & ip' & H1 & _). discriminate H1.
Qed.

(** X5. [resolveHostname] succeeds exactly when the lookup succeeds and
    the first address that passes the test of the requested family prints
    as a non-empty string; it returns that string.  The address chosen for
    IPv6 has a 16-byte form and no 4-byte form, the one chosen for IPv4 has
    a 4-byte form; every address before it in the lookup's answer fails the
    test. *)
Theorem X5_resolve_first_of_family (host : string) (useIPv6 : bool) (s : string) :
  resolveHostname IP To4 To16 IPString LookupIP host useIPv6 = (s, None) <->
  exists ips before ip after,
    LookupIP host = Some ips /\ ips = before ++ ip :: after /\
    Forall (fun q => selected IP To4 To16 useIPv6 q = false) before /\
    (if useIPv6 then To16 ip <> None /\ To4 ip = None else To4 ip <> None) /\
    selected IP To4 To16 useIPv6 ip = true /\
    s = IPString ip /\ s <> EmptyString.
Proof.
  rewrite resolve_success. split.
  - intros (ips & ip & Hl & Hf & Hs & Hne).
    assert (Hsplit : exists before after,
               ips = before ++ ip :: after /\
               Forall (fun q => chosen useIPv6 q = false) before).
    { clear Hl. induction ips as [|q ips IH]; [discriminate Hf|].
      cbn [find] in Hf. destruct (chosen useIPv6 q) eqn:Hq.
      - injection Hf as ->. exists [], ips. split; [reflexivity|constructor].
      - destruct (IH Hf) as (before & after & -> & Hb).
        exists (q :: before), after. split; [reflexivity|]. now constructor. }
    destruct Hsplit as (before & after & Hips & Hb).
    apply find_some in Hf as [_ Hc].
    exists ips, before, ip, after. repeat split; try assumption.
    now apply chosen_family.
  - intros (ips & before & ip & after & Hl & -> & Hb & _ & Hc & Hs & Hne).
    exists (before ++ ip :: after), ip. repeat split; try assumption.
    clear Hl. induction Hb as [|q before Hq Hb IH]; cbn [app find].
    + now rewrite Hc.
    + now rewrite Hq.
Qed.

(** X6. [resolveHostname] never returns an address together with an
    error.  The error is the failed lookup exactly when [net.LookupIP]
    fails; it is the missing address, naming the family asked for, exactly
    when the lookup answers but no address passes the test of the family
    (or the first that does prints as the empty string). *)
Theorem X6_resolve_errors (host : string) (useIPv6 : bool) (s : string) (e : Error) :
  resolveHostname IP To4 To16 IPString LookupIP host useIPv6 = (s, Some e) <->
  s = EmptyString /\
  ((LookupIP host = None /\ e = FailedToResolve host) \/
   (exists ips,
       LookupIP host = Some ips /\
       e = NoAddressFound (if useIPv6 then "IPv6" else "IPv4") host /\
       match find (selected IP To4 To16 useIPv6) ips with
       | None => True
       | Some ip => IPString ip = EmptyString
       end)).
Proof.
  unfold resolveHostname. destruct (LookupIP host) as [ips|] eqn:Hl.
  - rewrite range_ips_find. split.
    + destruct (find (chosen useIPv6) ips) as [ip|] eqn:Hf.
      * destruct (String.eqb_spec (IPString ip) EmptyString) as [E|E]; [|discriminate].
        intros H. injection H as <- <-. split; [reflexivity|right].
        exists ips. rewrite Hf. auto.
      * cbn. intros H. injection H as <- <-. split; [reflexivity|right].
        exists ips. rewrite Hf. auto.
    + intros [-> [[H _]|(ips' & H1 & -> & H3)]]; [discriminate H|].
      injection H1 as <-.
      destruct (find (chosen useIPv6) ips) as [ip|]; [|reflexivity].
      rewrite H3. reflexivity.
  - split.
    + intros H. injection H as <- <-. auto.
    + intros [-> [[_ ->]|(ips' & H1 & _)]]; [reflexivity|discriminate H1].
Qed.

(** X10. [main] reaches its goroutines exactly when a host is given,
    DeadTimeout passes the range check and [resolveHostname] finds an
    address; the probe loop is then given the first address of the family
    in the lookup's answer. *)
Theorem X10_main_starts
        (args : list string) (timeout : Z) (deadTimeout : float) (useIPv6 : bool)
        (resolvedHost : string) :
  Startup.main args timeout deadTimeout useIPv6
               (for_main IP To4 To16 IPString LookupIP)
  = Startup.Run resolvedHost <->
  exists host rest ips ip,
    args = host :: rest /\
    Startup.deadTimeout_out_of_range timeout deadTimeout = false /\
    LookupIP host = Some ips /\ find (selected IP To4 To16 useIPv6) ips = Some ip /\
    resolvedHost = IPString ip /\ resolvedHost <> EmptyString.
Proof.
  unfold Startup.main. destruct args as [|host rest].
  - split; [discriminate|]. intros (h & r & _ & _ & H & _). discriminate H.
  - destruct (Startup.deadTimeout_out_of_range timeout deadTimeout).
    + split; [discriminate|]. intros (h & r & _ & _ & _ & H & _). discriminate H.
    + unfold for_main.
      destruct (resolve host useIPv6) as [s [e|]] eqn:E.
      * split; [discriminate|].
        intros (h & r & ips & ip & H1 & _ & H3 & H4 & H5 & H6).
        injection H1 as <- <-.
        assert (E' : resolve host useIPv6 = (resolvedHost, None)).
        { apply resolve_success. exists ips, ip. auto. }
        rewrite E in E'. discriminate E'.
      * apply resolve_success in E as (ips & ip & H1 & H2 & H3 & H4).
        split.
        -- intros H. injection H as <-. exists host, rest, ips, ip.
           repeat (split; [first [assumption|reflexivity]|]). assumption.
        -- intros (h & r & ips' & ip' & Ha & _ & Hl & Hf & Hs & _).
           injection Ha as <- <-. rewrite H1 in Hl. injection Hl as <-.
           rewrite H2 in Hf. injection Hf as <-. now rewrite Hs, H3.
Qed.

End Resolution.

Section ResolutionExamples.

Import Resolve.

Local Abbreviation example_resolve :=
  (resolveHostname (list Z) bytes_To4 bytes_To16 example_String example_LookupIP).

Lemma X5_resolve_first_of_family_witness :
  example_resolve "dual.example" true = ("2001:db8::7"%string, None) /\
  example_resolve "dual.example" false = ("192.0.2.9"%string, None).
Proof.
  split.
  - apply (X5_resolve_first_of_family (list Z) bytes_To4 bytes_To16 example_String
             example_LookupIP).
    exists [example_v6; example_v4_mapped; example_v4], [], example_v6,
      [example_v4_mapped; example_v4].
    repeat split; try reflexivity; try discriminate. constructor.
  - apply (X5_resolve_first_of_family (list Z) bytes_To4 bytes_To16 example_String
             example_LookupIP).
    exists [example_v6; example_v4_mapped; example_v4], [example_v6],
      example_v4_mapped, [example_v4].
    repeat split; try reflexivity; try discriminate.
    constructor; [reflexivity|constructor].
Defined.

Lemma X6_resolve_errors_witness :
  example_resolve "v4.example" true
  = (EmptyString, Some (NoAddressFound "IPv6" "v4.example")) /\
  example_resolve "nowhere.example" false
  = (EmptyString, Some (FailedToResolve "nowhere.example")).
Proof.
  split.
  - apply (X6_resolve_errors (list Z) bytes_To4 bytes_To16 example_String
             example_LookupIP).
    split; [reflexivity|right]. exists [example_v4]. repeat split.
  - apply (X6_resolve_errors (list Z) bytes_To4 bytes_To16 example_String
             example_LookupIP).
    split; [reflexivity|left]. split; reflexivity.
Defined.

Lemma X10_main_starts_witness :
  Startup.main ["dual.example"%string] 150 500 true
               (for_main (list Z) bytes_To4 bytes_To16 example_String example_LookupIP)
  = Startup.Run "2001:db8::7".
Proof.
  apply (X10_main_starts (list Z) bytes_To4 bytes_To16 example_String example_LookupIP).
  exists "dual.example"%string, [], [example_v6; example_v4_mapped; example_v4], example_v6.
  repeat split; try reflexivity. discriminate.
Defined.

End ResolutionExamples.

(** ** More on the goroutines *)

Section GoroutinesMore.

Import Sched.

Ltac by_step H :=
  unfold step, step_prober, step_renderer, step_signals in H;
  repeat match type of H with
         | context [match ?x with _ => _ end] =>
             match x with
             | exited _ => destruct x eqn:?
             | p_pc _ => destruct x eqn:?
             | r_pc _ => destruct x eqn:?
             | s_pc _ => destruct x eqn:?
             | mutex _ => destruct x eqn:?
             | _ => is_var x; destruct x
             end
         | context [if exited ?c then _ else _] => destruct (exited c) eqn:?
         end;
  try discriminate H; injection H as <- <-.

Lemma step_running (ch : Choice) (c c' : Config) (l : Label) :
  step ch c = Some (c', l) -> running c = false -> running c' = false.
Proof.
  intros H Hr. by_step H; cbn; try assumption; try reflexivity.
  all: repeat match goal with
              | |- context [if ?b then _ else _] => destruct b
              end; cbn; try assumption; reflexivity.
Qed.

Lemma step_extends (ch : Choice) (c c' : Config) (l : Label) :
  step ch c = Some (c', l) ->
  Observe.extends (times c) (times c') /\
  Observe.extends (pings c) (pings c') /\
  Observe.extends (copies c) (copies c').
Proof.
  intros H. by_step H; cbn.
  all: repeat match goal with
              | |- context [if ?b then _ else _] => destruct b
              | |- context [match ?o with Some _ => _ | None => _ end] => destruct o
              end; cbn.
  all: repeat split; first [apply extends_refl | eexists; reflexivity].
Qed.

(** X16. No step of any goroutine sets the running flag back to true:
    once it is false it stays false in every execution; and after
    [os.Exit], or the return of [main], no goroutine takes a step. *)
Theorem X16_running_never_set_again (sched : list Choice) (c : Config) :
  (running c = false -> running (fst (run sched c)) = false) /\
  (exited c = true -> run sched c = (c, [])).
Proof.
  split.
  - revert c. induction sched as [|ch sched IH]; intros c Hr; [exact Hr|].
    cbn [run]. destruct (step ch c) as [[c' l]|] eqn:Hs; [|now apply IH].
    specialize (IH c' (step_running _ _ _ _ Hs Hr)).
    destruct (run sched c'). exact IH.
  - intros He. induction sched as [|ch sched IH]; [reflexivity|].
    cbn [run]. unfold step. rewrite He. exact IH.
Qed.

(** X17. The goroutines never deadlock on the mutex: in every
    configuration an execution reaches before the process exits, the probe
    goroutine or the render loop can take a step. *)
Theorem X17_no_deadlock (sched : list Choice) :
  let c := fst (run sched init) in
  exited c = false ->
  (exists c' l, step (MoveProber false None) c = Some (c', l)) \/
  (exists c' l, step (MoveRenderer false Tick) c = Some (c', l)).
Proof.
  intros c He.
  destruct (run_invariant sched init invariant_init) as [(Hm & Hx & _) _].
  fold c in Hm, Hx. clearbody c.
  unfold step, step_prober, step_renderer. rewrite He.
  destruct (p_pc c) eqn:Hp; cbn in Hm, Hx;
    try (left; eexists; eexists; reflexivity).
  - (* waiting for the mutex *)
    destruct (r_pc c) eqn:Hr; cbn in Hm; rewrite Hm;
      try (left; eexists; eexists; reflexivity);
      right; eexists; eexists; reflexivity.
  - (* returned *)
    right. destruct (r_pc c) eqn:Hr; cbn in Hm; try rewrite Hm;
      eexists; eexists; reflexivity.
Qed.

Lemma X17_no_deadlock_witness :
  let c := fst (run [MoveProber false None; MoveProber false None;
                     MoveProber false (Some 7%float); MoveProber false None] init) in
  (exists c' l, step (MoveProber false None) c = Some (c', l)) \/
  (exists c' l, step (MoveRenderer false Tick) c = Some (c', l)).
Proof.
  apply (X17_no_deadlock [MoveProber false None; MoveProber false None;
                          MoveProber false (Some 7%float); MoveProber false None]).
  reflexivity.
Defined.

(** X18. In every execution, from any configuration, the shared [times]
    and [pings] and the list of copies taken by the render loop only grow
    at the end: what was there stays an initial segment. *)
Theorem X18_shared_append_only (sched : list Choice) (c : Config) :
  Observe.extends (times c) (times (fst (run sched c))) /\
  Observe.extends (pings c) (pings (fst (run sched c))) /\
  Observe.extends (copies c) (copies (fst (run sched c))).
Proof.
  revert c. induction sched as [|ch sched IH]; intros c.
  - cbn. repeat split; apply extends_refl.
  - cbn [run]. destruct (step ch c) as [[c' l]|] eqn:Hs; [|apply IH].
    destruct (step_extends _ _ _ _ Hs) as (H1 & H2 & H3).
    destruct (IH c') as (I1 & I2 & I3).
    destruct (run sched c') as [c'' ls]. cbn [fst] in *.
    repeat split; eapply extends_trans; eassumption.
Qed.

Lemma step_plotData (ch : Choice) (c c' : Config) (l : Label) :
  step ch c = Some (c', l) ->
  Observe.extends (plotData c) (times c) ->
  Observe.extends (plotData c') (times c').
Proof.
  intros H Hp. by_step H; cbn.
  all: repeat match goal with
              | |- context [if ?b then _ else _] => destruct b
              | |- context [match ?o with Some _ => _ | None => _ end] => destruct o
              end; cbn.
  all: first [ assumption
             | apply extends_refl
             | eapply extends_trans; [exact Hp|eexists; reflexivity] ].
Qed.

(** X20. In every execution the copy the render loop works on is an
    initial segment of the shared series, so when [updateStats] reads the
    series after the copy its Total N is at least the number of points on
    the chart. *)
Theorem X20_chart_behind_series
        (timeout : Z) (deadTimeout elapsed : float) (sched : list Choice) :
  let c := fst (run sched init) in
  Observe.extends (plotData c) (times c) /\
  len (plotData c) <= Stats.totalN (Stats.updateStats timeout deadTimeout (times c) elapsed).
Proof.
  cbn zeta.
  assert (H : forall c, Observe.extends (plotData c) (times c) ->
                        Observe.extends (plotData (fst (run sched c)))
                                        (times (fst (run sched c)))).
  { induction sched as [|ch sched IH]; intros c Hc; [exact Hc|].
    cbn [run]. destruct (step ch c) as [[c' l]|] eqn:Hs; [|now apply IH].
    specialize (IH c' (step_plotData _ _ _ _ Hs Hc)).
    destruct (run sched c'). exact IH. }
  specialize (H init (extends_refl [])).
  split; [exact H|].
  destruct H as [r Hr].
  assert (HN : forall times,
             Stats.totalN (Stats.updateStats timeout deadTimeout times elapsed) = len times).
  { intros times. unfold Stats.updateStats.
    repeat match goal with
           | |- context [Stats.minmax_loop ?l] => destruct (Stats.minmax_loop l)
           | |- context [Stats.count_loop ?a ?b ?c] => destruct (Stats.count_loop a b c)
           | |- context [len ?l >? ?k] => destruct (len l >? k)
           end; reflexivity. }
  rewrite HN, Hr, len_app. pose proof (len_nonneg r). lia.
Qed.

End GoroutinesMore.

(** ** The keyboard and the chart, by example *)

Section Keys.

Import Plot.

Lemma toggle_twice (s : string) :
  s = "linear"%string \/ s = "log"%string -> toggle (toggle s) = s.
Proof. intros [-> | ->]; reflexivity. Qed.

(** X19. From the initial scale "linear", whatever keys are pressed the
    scale is "linear" or "log" and nothing else; as long as no quit key is
    among them, it is "log" exactly when 'l' was pressed an odd number of
    times. *)
Theorem X19_scale_alternates (ids : list string) :
  (after_keys ids "linear" = "linear"%string \/ after_keys ids "linear" = "log"%string) /\
  (forallb (fun id => negb (String.eqb id "q" || String.eqb id "<C-c>")) ids = true ->
   after_keys ids "linear"
   = if Nat.even (count_occ string_dec ids "l"%string) then "linear"%string
     else "log"%string).
Proof.
  assert (Hgen : forall ids s,
             s = "linear"%string \/ s = "log"%string ->
             (after_keys ids s = "linear"%string \/ after_keys ids s = "log"%string) /\
             (forallb (fun id => negb (String.eqb id "q" || String.eqb id "<C-c>")) ids
              = true ->
              after_keys ids s
              = if Nat.even (count_occ string_dec ids "l"%string) then s
                else toggle s)).
  { clear ids. induction ids as [|k ids IH]; intros s Hs.
    - cbn. auto.
    - cbn [after_keys forallb count_occ].
      destruct (String.eqb k "q" || String.eqb k "<C-c>") eqn:Hq.
      + split; [exact Hs|discriminate].
      + cbn [negb andb]. destruct (String.eqb_spec k "l") as [->|Hl].
        * destruct (string_dec "l" "l") as [_|C]; [|now contradiction C].
          assert (Ht : toggle s = "linear"%string \/ toggle s = "log"%string)
            by (destruct Hs as [-> | ->]; auto).
          destruct (IH (toggle s) Ht) as [I1 I2]. split; [exact I1|].
          intros Hall. rewrite (I2 Hall), Nat.even_succ, <- Nat.negb_even.
          destruct (Nat.even (count_occ string_dec ids "l"%string)); cbn [negb];
            [reflexivity|now apply toggle_twice].
        * destruct (string_dec k "l") as [C|_]; [now contradiction Hl|].
          apply IH, Hs. }
  destruct (Hgen ids "linear"%string) as [H1 H2]; [now left|].
  split; [exact H1|exact H2].
Qed.

Lemma X19_scale_alternates_witness :
  after_keys ["l"; "x"; "l"; "l"]%string "linear" = "log"%string.
Proof.
  destruct (X19_scale_alternates ["l"; "x"; "l"; "l"]%string) as [_ H].
  rewrite H; reflexivity.
Defined.

Lemma X3_update_plot_witness :
  exists plot',
    update_plot (fun _ => 0%float) "linear" [30; 500; 10]%float (mkPlot [[]] 0)
    = Some plot' /\
    Data plot' = [[30; 500; 10]%float] /\
    Spec.is_max [30; 500; 10]%float (MaxVal plot').
Proof.
  destruct (X3_update_plot (fun _ => 0%float) "linear" [30; 500; 10]%float
              (mkPlot [[]] 0) eq_refl) as (plot' & E & _ & _ & H).
  exists plot'. split; [exact E|]. apply H. discriminate.
Defined.

End Keys.
